(** * Zeno distributed data sync and verification: a model of the
    "Data Syncing" module of [src/examples/optimize_gas.js]

    The module pulls a JSON document from each configured node, resolves it
    against the locally stored copy by timestamp, writes the winner back to
    the data directory, and offers a hash check over stored files.

    The JavaScript is embedded shallowly: every function of the module is a
    Rocq function of the same name.  Effects (file system, console, network)
    are threaded through an explicit [World]; exceptions are values of an
    error monad whose state survives a throw, as it does in JavaScript. *)

From Stdlib Require Import ZArith NArith Ascii String List Lia DecimalString.
From stdpp Require Import base option list strings gmap.

Open Scope Z_scope.

(** ** Strings *)

(** [s] without its prefix [p], if it has that prefix. *)
Fixpoint drop_prefix (p s : string) : option string :=
  match p, s with
  | EmptyString, _ => Some s
  | String a p', String b s' => if Ascii.eqb a b then drop_prefix p' s' else None
  | String _ _, EmptyString => None
  end.

(** [s] without its last character. *)
Fixpoint drop_last (s : string) : string :=
  match s with
  | EmptyString => ""
  | String c EmptyString => ""
  | String c rest => String c (drop_last rest)
  end.

(** ** JSON values

    What [JSON.parse] and [axios] hand to the program.  Numbers are the
    integer-valued ones (millisecond timestamps, counters); fractional
    numbers are outside the model.  An object keeps its properties in
    enumeration order. *)

#[warnings="-register-all"] Inductive JSON : Type :=
  | JNull
  | JBool (b : bool)
  | JNum (n : Z)
  | JStr (s : string)
  | JArr (elems : list JSON)
  | JObj (props : list (string * JSON)).

(** The value of an expression: a JSON value, or [undefined] ([None]). *)
Definition JSValue := option JSON.

Module Json.

(** [if (v)]: the falsy JSON values are [null], [false], [0] and [""]. *)
Definition truthy (v : JSON) : bool :=
  match v with
  | JNull => false
  | JBool b => b
  | JNum n => negb (n =? 0)
  | JStr s => negb (String.eqb s "")
  | JArr _ | JObj _ => true
  end.

Fixpoint lookup_prop (k : string) (props : list (string * JSON)) : JSValue :=
  match props with
  | [] => None
  | (k', v) :: rest => if String.eqb k k' then Some v else lookup_prop k rest
  end.

(** [v.k] for a name [k] that is neither an array index nor a built-in
    property: defined on objects only; primitives and arrays give
    [undefined].  ([null.k] throws; the callers check for that first.) *)
Definition get (v : JSON) (k : string) : JSValue :=
  match v with
  | JObj props => lookup_prop k props
  | _ => None
  end.

(** The double-quote character, U+0022. *)
Definition dquote : ascii := ascii_of_N 34.

Definition digits (n : Z) : string := NilZero.string_of_int (Z.to_int n).

Definition hex_digit (n : N) : ascii :=
  ascii_of_N (if (n <? 10)%N then 48 + n else 87 + n)%N.

(** QuoteJSONString, one character at a time. *)
Definition quote_char (c : ascii) : string :=
  let n := N_of_ascii c in
  if (n =? 34)%N then String "\" (String dquote "")
  else if (n =? 92)%N then "\\"
  else if (n =? 8)%N then "\b"
  else if (n =? 9)%N then "\t"
  else if (n =? 10)%N then "\n"
  else if (n =? 12)%N then "\f"
  else if (n =? 13)%N then "\r"
  else if (n <? 32)%N then
    "\u00" +:+ String (hex_digit (n / 16)) (String (hex_digit (n mod 16)) "")
  else String c "".

Fixpoint quote_body (s : string) : string :=
  match s with
  | EmptyString => ""
  | String c rest => quote_char c +:+ quote_body rest
  end.

Definition quote (s : string) : string :=
  String dquote (quote_body s +:+ String dquote "").

(** The line feed, U+000A, which separates the lines of an indented
    document. *)
Definition newline : string := String (ascii_of_N 10) "".

Fixpoint join (sep : string) (parts : list string) : string :=
  match parts with
  | [] => ""
  | [p] => p
  | p :: rest => p +:+ sep +:+ join sep rest
  end.

(** SerializeJSONProperty with gap ["  "]; [indent] is the indentation of
    the enclosing line.  Integers print in plain decimal, as JavaScript
    prints those below 10^21 in magnitude. *)
Fixpoint serialize (indent : string) (v : JSON) : string :=
  let inner := indent +:+ "  " in
  let sep := "," +:+ newline +:+ inner in
  match v with
  | JNull => "null"
  | JBool true => "true"
  | JBool false => "false"
  | JNum n => digits n
  | JStr s => quote s
  | JArr [] => "[]"
  | JArr elems =>
      "[" +:+ newline +:+ inner +:+ join sep (map (serialize inner) elems)
      +:+ newline +:+ indent +:+ "]"
  | JObj [] => "{}"
  | JObj props =>
      "{" +:+ newline +:+ inner
      +:+ join sep (map (fun kv => quote kv.1 +:+ ": " +:+ serialize inner kv.2) props)
      +:+ newline +:+ indent +:+ "}"
  end.

(** ToString of a value, as ToPrimitive reaches it for arrays and objects:
    [Array.prototype.join] prints [null] elements as the empty string. *)
Fixpoint to_string (v : JSON) : string :=
  match v with
  | JNull => "null"
  | JBool true => "true"
  | JBool false => "false"
  | JNum n => digits n
  | JStr s => s
  | JArr elems =>
      join "," (map (fun e => match e with JNull => "" | _ => to_string e end) elems)
  | JObj _ => "[object Object]"
  end.

End Json.

(** [JSON.stringify(v, null, 2)] *)
Definition JSON_stringify (v : JSON) : string := Json.serialize "" v.

(** ** Dates

    A [Date] is its time value: milliseconds since the epoch, or [None] for
    the NaN of an Invalid Date. *)

Definition TimeValue := option Z.

Definition TimeClip (t : Z) : TimeValue :=
  if Z.abs t <=? 8640000000000000 then Some t else None.

(** [a > b] on two dates: both are converted to their time values and
    compared as numbers; a comparison with NaN is false. *)
Definition date_gt (a b : TimeValue) : bool :=
  match a, b with
  | Some x, Some y => y <? x
  | _, _ => false
  end.

(** ** Errors *)

Inductive exn : Type :=
  | Error (message : string)        (* [new Error(message)] *)
  | TypeError                       (* a property read on [null] *)
  | SyntaxError                     (* [JSON.parse] on malformed text *)
  | AxiosError (message : string)   (* a failed request *)
  | SystemError (code : string).    (* a failed file system call *)

Inductive Result (A : Type) : Type :=
  | OK (a : A)
  | Threw (e : exn).
Arguments OK {A} a.
Arguments Threw {A} e.

(** ** Configuration *)

Record NodeConfig : Type := { name : string; url : string }.

Record Config : Type := {
  nodes : list NodeConfig;
  syncInterval : Z;
  dataDirectory : string;
  hashAlgorithm : string;
  conflictResolution : string
}.

Definition CONFIG : Config := {|
  nodes := [ {| name := "Node 1"; url := "http://node1.blockchain.net/sync" |};
             {| name := "Node 2"; url := "http://node2.blockchain.net/sync" |};
             {| name := "Node 3"; url := "http://node3.blockchain.net/sync" |} ];
  syncInterval := 60000;
  dataDirectory := "./data";
  hashAlgorithm := "sha256";
  conflictResolution := "latest-timestamp"
|}.

(** ** The platform

    The module calls into Node.js and two packages.  Their behaviour is a
    parameter of the model: every theorem below holds for any platform. *)

Record Platform : Type := {
  (** [path.join(dir, file)] *)
  path_join : string -> string -> string;
  (** [Date.parse(s)]; the accepted formats beyond ISO 8601 are left to the
      engine. *)
  Date_parse : string -> TimeValue;
  (** [JSON.parse(text)]; [None] is a thrown SyntaxError. *)
  JSON_parse : string -> option JSON;
  (** [(await axios.get(url)).data], or the error the request fails with. *)
  axios_get : string -> Result JSON;
  (** The error code [fs.writeFileSync(path, _)] fails with, if it fails. *)
  fs_write_error : string -> option string;
  (** [crypto.createHash(algorithm).update(data).digest("hex")] *)
  crypto_digest_hex : string -> string -> Result string
}.

(** ** The world: files, console and network traffic

    A file holds text: what [fs.writeFileSync] is given is what
    [fs.readFileSync] returns, the encoding as UTF-8 in between is not
    modelled.  The console is the list of lines printed so far, the request
    log the list of addresses asked so far. *)

Inductive ConsoleLine : Type :=
  | Out (text : string)              (* [console.log(text)] *)
  | Err (text : string)              (* [console.error(text)] *)
  | ErrWith (text : string) (e : exn). (* [console.error(text, e.message)] *)

Record World : Type := {
  files : gmap string string;
  console : list ConsoleLine;
  requests : list string
}.

(** A computation may change the world and then return or throw; what it
    changed before a throw stays changed. *)
Definition M (A : Type) : Type := World -> Result A * World.

Definition ret {A} (a : A) : M A := fun w => (OK a, w).

Definition throw {A} (e : exn) : M A := fun w => (Threw e, w).

Definition bind {A B} (m : M A) (k : A -> M B) : M B :=
  fun w => match m w with
           | (OK a, w') => k a w'
           | (Threw e, w') => (Threw e, w')
           end.

(** [try { m } catch (error) { handler(error) }] *)
Definition try_catch {A} (m : M A) (handler : exn -> M A) : M A :=
  fun w => match m w with
           | (OK a, w') => (OK a, w')
           | (Threw e, w') => handler e w'
           end.

Definition lift {A} (r : Result A) : M A := fun w => (r, w).

Declare Scope js_scope.
Delimit Scope js_scope with js.
Notation "x <- m ;; k" := (bind m (fun x => k))
  (at level 100, m at next level, right associativity) : js_scope.
Notation "m ;; k" := (bind m (fun _ => k))
  (at level 100, right associativity) : js_scope.
Open Scope js_scope.

Definition exec {A} (m : M A) (w : World) : World := (m w).2.
Definition result {A} (m : M A) (w : World) : Result A := (m w).1.

(** ** Platform calls, as computations *)

Section Program.

Context (P : Platform) (cfg : Config).

Definition console_log (text : string) : M unit :=
  fun w => (OK tt, {| files := files w;
                      console := console w ++ [Out text];
                      requests := requests w |}).

Definition console_error (text : string) : M unit :=
  fun w => (OK tt, {| files := files w;
                      console := console w ++ [Err text];
                      requests := requests w |}).

Definition console_error_with (text : string) (e : exn) : M unit :=
  fun w => (OK tt, {| files := files w;
                      console := console w ++ [ErrWith text e];
                      requests := requests w |}).

(** [await axios.get(url)], then [.data] *)
Definition axios_get_data (u : string) : M JSON :=
  fun w => (axios_get P u, {| files := files w;
                              console := console w;
                              requests := requests w ++ [u] |}).

Definition fs_existsSync (path : string) : M bool :=
  fun w => (OK (match files w !! path with Some _ => true | None => false end), w).

Definition fs_readFileSync (path : string) : M string :=
  fun w => match files w !! path with
           | Some data => (OK data, w)
           | None => (Threw (SystemError "ENOENT"), w)
           end.

Definition fs_writeFileSync (path data : string) : M unit :=
  fun w => match fs_write_error P path with
           | Some code => (Threw (SystemError code), w)
           | None => (OK tt, {| files := <[path := data]> (files w);
                                console := console w;
                                requests := requests w |})
           end.

Definition parse (text : string) : M JSON :=
  match JSON_parse P text with
  | Some v => ret v
  | None => throw SyntaxError
  end.

(** [new Date(v)]: ToPrimitive, then [Date.parse] for a string and
    ToNumber for anything else. *)
Definition Date (v : JSValue) : TimeValue :=
  match v with
  | None => None
  | Some JNull => Some 0
  | Some (JBool b) => Some (if b then 1 else 0)
  | Some (JNum n) => TimeClip n
  | Some (JStr s) => Date_parse P s
  | Some (JArr elems) => Date_parse P (Json.to_string (JArr elems))
  | Some (JObj props) => Date_parse P (Json.to_string (JObj props))
  end.

(** ** Utility functions *)

Definition hashData (data : string) : Result string :=
  crypto_digest_hex P (hashAlgorithm cfg) data.

Definition saveDataToFile (fileName data : string) : M unit :=
  let filePath := path_join P (dataDirectory cfg) fileName in
  fs_writeFileSync filePath data ;;
  console_log ("Data saved to: " +:+ filePath).

Definition loadDataFromFile (fileName : string) : M string :=
  let filePath := path_join P (dataDirectory cfg) fileName in
  found <- fs_existsSync filePath ;;
  if found : bool then fs_readFileSync filePath
  else throw (Error ("File not found: " +:+ fileName)).

(** ** NodeSync *)

Record NodeSync : Type := { node : NodeConfig }.

Definition fetchData (this : NodeSync) : M JSON :=
  try_catch
    (data <- axios_get_data (url (node this)) ;;
     console_log ("Fetched data from " +:+ name (node this)) ;;
     ret data)
    (fun error =>
       console_error_with
         ("Error fetching data from " +:+ name (node this) +:+ ":") error ;;
       throw error).

(** ** Conflict resolution *)

(** [v.timestamp]; reading a property of [null] throws. *)
Definition timestamp_of (v : JSON) : Result JSValue :=
  match v with
  | JNull => Threw TypeError
  | _ => OK (Json.get v "timestamp")
  end.

Definition resolveConflict (localData remoteData : JSON) : Result JSON :=
  match timestamp_of localData with
  | Threw e => Threw e
  | OK lt =>
      let localTimestamp := Date lt in
      match timestamp_of remoteData with
      | Threw e => Threw e
      | OK rt =>
          let remoteTimestamp := Date rt in
          if String.eqb (conflictResolution cfg) "latest-timestamp" then
            OK (if date_gt localTimestamp remoteTimestamp
                then localData else remoteData)
          else Threw (Error "Unsupported conflict resolution strategy")
      end
  end.

(** ** Data synchronization *)

Definition is_space (c : ascii) : bool :=
  let n := N_of_ascii c in
  ((9 <=? n) && (n <=? 13) || (n =? 32))%N.

(** [s.replace(/\s+/g, "_")], on ASCII white space: every maximal run of
    white space becomes one underscore. *)
Fixpoint replace_spaces (in_run : bool) (s : string) : string :=
  match s with
  | EmptyString => ""
  | String c rest =>
      if is_space c then
        if in_run then replace_spaces true rest
        else String "_" (replace_spaces true rest)
      else String c (replace_spaces false rest)
  end.

Definition localFileName (nodeConfig : NodeConfig) : string :=
  replace_spaces false (name nodeConfig) +:+ "_data.json".

Definition localFilePath (nodeConfig : NodeConfig) : string :=
  path_join P (dataDirectory cfg) (localFileName nodeConfig).

(** The body of the [try] block for one node. *)
Definition syncNode_body (nodeConfig : NodeConfig) : M unit :=
  let node := {| node := nodeConfig |} in
  remoteData <- fetchData node ;;
  let fileName := localFileName nodeConfig in
  found <- fs_existsSync (path_join P (dataDirectory cfg) fileName) ;;
  localData <- (if found : bool
                then text <- loadDataFromFile fileName ;; parse text
                else ret JNull) ;;
  (if Json.truthy localData then
     resolvedData <- lift (resolveConflict localData remoteData) ;;
     saveDataToFile fileName (JSON_stringify resolvedData)
   else saveDataToFile fileName (JSON_stringify remoteData)) ;;
  console_log ("Data synchronized for " +:+ name nodeConfig).

(** One iteration of the loop: the body, and its [catch]. *)
Definition syncNode (nodeConfig : NodeConfig) : M unit :=
  try_catch (syncNode_body nodeConfig)
    (fun error =>
       console_error_with
         ("Error synchronizing data for " +:+ name nodeConfig +:+ ":") error).

Fixpoint for_each {A} (l : list A) (body : A -> M unit) : M unit :=
  match l with
  | [] => ret tt
  | x :: rest => body x ;; for_each rest body
  end.

Definition synchronizeData : M unit :=
  console_log "Starting data synchronization..." ;;
  for_each (nodes cfg) syncNode ;;
  console_log "Data synchronization complete.".

(** ** DataVerifier *)

Record DataVerifier : Type := { fileName : string }.

Definition verifyIntegrity (this : DataVerifier) (expectedHash : string) : M bool :=
  data <- loadDataFromFile (fileName this) ;;
  calculatedHash <- lift (hashData data) ;;
  if String.eqb calculatedHash expectedHash then
    console_log ("Integrity verified for " +:+ fileName this) ;; ret true
  else
    console_error ("Integrity check failed for " +:+ fileName this) ;; ret false.

End Program.

(** ** SHA-256 (FIPS 180-4), the digest [CONFIG.hashAlgorithm] names *)

Module SHA256.

Local Open Scope N_scope.

Definition mask32 : N := 0xffffffff.
Definition add32 (x y : N) : N := N.land (x + y) mask32.
Definition rotr (n x : N) : N :=
  N.lor (N.shiftr x n) (N.land (N.shiftl x (32 - n)) mask32).
Definition not32 (x : N) : N := N.lxor x mask32.

Definition Ch (x y z : N) : N := N.lxor (N.land x y) (N.land (not32 x) z).
Definition Maj (x y z : N) : N :=
  N.lxor (N.lxor (N.land x y) (N.land x z)) (N.land y z).
Definition Sigma0 (x : N) : N := N.lxor (N.lxor (rotr 2 x) (rotr 13 x)) (rotr 22 x).
Definition Sigma1 (x : N) : N := N.lxor (N.lxor (rotr 6 x) (rotr 11 x)) (rotr 25 x).
Definition sigma0 (x : N) : N := N.lxor (N.lxor (rotr 7 x) (rotr 18 x)) (N.shiftr x 3).
Definition sigma1 (x : N) : N := N.lxor (N.lxor (rotr 17 x) (rotr 19 x)) (N.shiftr x 10).

(** The constants are fractional parts of roots of primes, as the standard
    defines them: the first 32 bits of the fractional part of the [k]-th
    root of [p] is the integer [k]-th root of [p * 2^(32k)], modulo 2^32. *)

Definition is_prime (n : nat) : bool :=
  forallb (fun d => negb (n mod d =? 0)%nat) (seq 2 (n - 2)).

(** The first 64 primes, 2 to 311. *)
Definition primes : list N := map N.of_nat (filter is_prime (seq 2 310)).

(** The integer [k]-th root of [x], found bit by bit below [2^bit]. *)
Fixpoint iroot (k : N) (bit : nat) (x acc : N) : N :=
  match bit with
  | O => acc
  | S bit' =>
      let c := acc + 2 ^ N.of_nat bit' in
      iroot k bit' x (if c ^ k <=? x then c else acc)
  end.

Definition root_fraction (k p : N) : N :=
  N.land (iroot k 40 (p * 2 ^ (32 * k)) 0) mask32.

(** Cube roots of the first 64 primes. *)
Definition K : list N := Eval vm_compute in map (root_fraction 3) primes.

(** Square roots of the first 8 primes. *)
Definition H0 : list N := Eval vm_compute in map (root_fraction 2) (firstn 8 primes).

Fixpoint bytes_of (s : string) : list N :=
  match s with
  | EmptyString => []
  | String c rest => N_of_ascii c :: bytes_of rest
  end.

(** The big-endian bytes of [x], [n] of them. *)
Fixpoint be_bytes (n : nat) (x : N) : list N :=
  match n with
  | O => []
  | S n' => N.land (N.shiftr x (8 * N.of_nat n')) 0xff :: be_bytes n' x
  end.

(** Padding: a one bit, zeros up to 56 modulo 64 bytes, and the length in
    bits as a 64-bit number. *)
Definition pad (msg : list N) : list N :=
  let len := N.of_nat (length msg) in
  let zeros := N.to_nat ((119 - len mod 64) mod 64) in
  msg ++ [0x80] ++ repeat 0 zeros ++ be_bytes 8 (8 * len).

Fixpoint words_of (fuel : nat) (bytes : list N) : list N :=
  match fuel, bytes with
  | S fuel', a :: b :: c :: d :: rest =>
      (N.shiftl a 24 + N.shiftl b 16 + N.shiftl c 8 + d) :: words_of fuel' rest
  | _, _ => []
  end.

(** The message schedule, newest word first: [rev_w] holds W(t-1), W(t-2),
    and so on. *)
Fixpoint extend (n : nat) (rev_w : list N) : list N :=
  match n with
  | O => rev_w
  | S n' =>
      let w := add32 (add32 (sigma1 (nth 1 rev_w 0)) (nth 6 rev_w 0))
                     (add32 (sigma0 (nth 14 rev_w 0)) (nth 15 rev_w 0)) in
      extend n' (w :: rev_w)
  end.

Definition schedule (block : list N) : list N := rev (extend 48 (rev block)).

Definition round (st : list N) (kw : N * N) : list N :=
  match st with
  | [a; b; c; d; e; f; g; h] =>
      let t1 := add32 (add32 (add32 h (Sigma1 e)) (add32 (Ch e f g) kw.1)) kw.2 in
      let t2 := add32 (Sigma0 a) (Maj a b c) in
      [add32 t1 t2; a; b; c; add32 d t1; e; f; g]
  | _ => st
  end.

Definition zip (xs ys : list N) : list (N * N) := combine xs ys.

Definition compress (h : list N) (block : list N) : list N :=
  map (fun p : N * N => add32 p.1 p.2)
      (zip h (fold_left round (zip K (schedule block)) h)).

Fixpoint blocks (fuel : nat) (h : list N) (ws : list N) : list N :=
  match fuel with
  | O => h
  | S fuel' =>
      match ws with
      | [] => h
      | _ => blocks fuel' (compress h (firstn 16 ws)) (skipn 16 ws)
      end
  end.

Definition hex_byte (b : N) : string :=
  String (Json.hex_digit (b / 16)) (String (Json.hex_digit (b mod 16)) "").

Definition hex (data : string) : string :=
  let bytes := pad (bytes_of data) in
  let ws := words_of (length bytes) bytes in
  let h := blocks (length ws) H0 ws in
  Json.join "" (map hex_byte (flat_map (be_bytes 4) h)).

End SHA256.

(** ** A JSON reader

    [JSON.parse] on the fragment of JSON the model has values for: integer
    literals, and text whose escapes denote characters of the Basic
    Multilingual Plane outside the surrogate range.  A repeated key keeps
    its first position and its last value. *)

Module JsonReader.

Definition code (c : ascii) : N := N_of_ascii c.

Definition is_ws (c : ascii) : bool :=
  let n := code c in ((n =? 32) || (n =? 9) || (n =? 10) || (n =? 13))%N.

Fixpoint skip_ws (s : string) : string :=
  match s with
  | String c rest => if is_ws c then skip_ws rest else s
  | EmptyString => s
  end.

Definition is_digit (c : ascii) : bool :=
  let n := code c in ((48 <=? n) && (n <=? 57))%N.

Definition hex_value (c : ascii) : option N :=
  let n := code c in
  if ((48 <=? n) && (n <=? 57))%N then Some (n - 48)%N
  else if ((97 <=? n) && (n <=? 102))%N then Some (n - 87)%N
  else if ((65 <=? n) && (n <=? 70))%N then Some (n - 55)%N
  else None.

(** UTF-8 for a code point below U+10000. *)
Definition utf8 (cp : N) : string :=
  (if cp <? 0x80 then String (ascii_of_N cp) ""
   else if cp <? 0x800 then
     String (ascii_of_N (0xC0 + cp / 64))
       (String (ascii_of_N (0x80 + cp mod 64)) "")
   else
     String (ascii_of_N (0xE0 + cp / 4096))
       (String (ascii_of_N (0x80 + (cp / 64) mod 64))
          (String (ascii_of_N (0x80 + cp mod 64)) "")))%N.

Definition read_hex4 (s : string) : option (N * string) :=
  match s with
  | String a (String b (String c (String d rest))) =>
      match hex_value a, hex_value b, hex_value c, hex_value d with
      | Some x, Some y, Some z, Some w =>
          Some (((x * 16 + y) * 16 + z) * 16 + w, rest)%N
      | _, _, _, _ => None
      end
  | _ => None
  end.

(** The characters of a string literal after its opening quote, up to and
    including the closing one. *)
Fixpoint read_string (s : string) : option (string * string) :=
  match s with
  | EmptyString => None
  | String c rest =>
      let n := code c in
      if (n =? 34)%N then Some ("", rest)
      else if (n <? 32)%N then None
      else if (n =? 92)%N then
        match rest with
        | String e rest' =>
            let plain (ch : N) :=
              match read_string rest' with
              | Some (body, tail) => Some (String (ascii_of_N ch) body, tail)
              | None => None
              end in
            let m := code e in
            if (m =? 34)%N then plain 34%N          (* quote *)
            else if (m =? 92)%N then plain 92%N     (* backslash *)
            else if (m =? 47)%N then plain 47%N     (* solidus *)
            else if (m =? 98)%N then plain 8%N      (* b *)
            else if (m =? 102)%N then plain 12%N    (* f *)
            else if (m =? 110)%N then plain 10%N    (* n *)
            else if (m =? 114)%N then plain 13%N    (* r *)
            else if (m =? 116)%N then plain 9%N     (* t *)
            else if (m =? 117)%N then               (* u *)
              match read_hex4 rest' with
              | Some (cp, _) =>
                  if ((0xD800 <=? cp) && (cp <=? 0xDFFF))%N then None
                  else
                    match rest' with
                    | String _ (String _ (String _ (String _ after))) =>
                        match read_string after with
                        | Some (body, tail) => Some (utf8 cp +:+ body, tail)
                        | None => None
                        end
                    | _ => None
                    end
              | None => None
              end
            else None
        | EmptyString => None
        end
      else
        match read_string rest with
        | Some (body, tail) => Some (String c body, tail)
        | None => None
        end
  end.

Fixpoint read_digits (acc : Z) (s : string) : Z * string :=
  match s with
  | String c rest =>
      if is_digit c then read_digits (10 * acc + Z.of_N (code c - 48)) rest
      else (acc, s)
  | EmptyString => (acc, s)
  end.

(** An integer literal: [0], or a nonzero digit and more digits.  A
    fraction or an exponent after it is not read. *)
Definition read_nat (s : string) : option (Z * string) :=
  match s with
  | String c rest =>
      if (code c =? 48)%N then
        match rest with
        | String d _ => if is_digit d then None else Some (0, rest)
        | EmptyString => Some (0, rest)
        end
      else if is_digit c then Some (read_digits 0 s)
      else None
  | EmptyString => None
  end.

Definition no_fraction (s : string) : bool :=
  match s with
  | String c _ => negb ((code c =? 46) || (code c =? 101) || (code c =? 69))%N
  | EmptyString => true
  end.

Definition read_number (s : string) : option (JSON * string) :=
  let '(sign, digits) :=
    match s with
    | String c rest => if (code c =? 45)%N then (-1, rest) else (1, s)
    | EmptyString => (1, s)
    end in
  match read_nat digits with
  | Some (n, tail) => if no_fraction tail then Some (JNum (sign * n), tail) else None
  | None => None
  end.

(** [CreateDataProperty]: a key already present keeps its place. *)
Fixpoint set_prop (k : string) (v : JSON) (props : list (string * JSON))
  : list (string * JSON) :=
  match props with
  | [] => [(k, v)]
  | (k', v') :: rest =>
      if String.eqb k k' then (k, v) :: rest else (k', v') :: set_prop k v rest
  end.

Fixpoint read_value (fuel : nat) (s : string) : option (JSON * string) :=
  match fuel with
  | O => None
  | S fuel' =>
      match skip_ws s with
      | EmptyString => None
      | String c rest as s' =>
          let n := code c in
          if (n =? 123)%N then                       (* open brace *)
            match skip_ws rest with
            | String d rest' =>
                if (code d =? 125)%N then Some (JObj [], rest')
                else read_members fuel' [] (skip_ws rest)
            | EmptyString => None
            end
          else if (n =? 91)%N then                   (* open bracket *)
            match skip_ws rest with
            | String d rest' =>
                if (code d =? 93)%N then Some (JArr [], rest')
                else read_elements fuel' [] rest
            | EmptyString => None
            end
          else if (n =? 34)%N then
            match read_string rest with
            | Some (str, tail) => Some (JStr str, tail)
            | None => None
            end
          else if (n =? 116)%N then
            option_map (fun tail => (JBool true, tail)) (drop_prefix "true" s')
          else if (n =? 102)%N then
            option_map (fun tail => (JBool false, tail)) (drop_prefix "false" s')
          else if (n =? 110)%N then
            option_map (fun tail => (JNull, tail)) (drop_prefix "null" s')
          else read_number s'
      end
  end
with read_elements (fuel : nat) (acc : list JSON) (s : string)
  : option (JSON * string) :=
  match fuel with
  | O => None
  | S fuel' =>
      match read_value fuel' s with
      | Some (v, tail) =>
          match skip_ws tail with
          | String c rest =>
              if (code c =? 44)%N then read_elements fuel' (acc ++ [v]) rest
              else if (code c =? 93)%N then Some (JArr (acc ++ [v]), rest)
              else None
          | EmptyString => None
          end
      | None => None
      end
  end
with read_members (fuel : nat) (acc : list (string * JSON)) (s : string)
  : option (JSON * string) :=
  match fuel with
  | O => None
  | S fuel' =>
      match s with
      | String q after_quote =>
          if (code q =? 34)%N then
            match read_string after_quote with
            | Some (k, tail) =>
                match skip_ws tail with
                | String colon rest =>
                    if (code colon =? 58)%N then
                      match read_value fuel' rest with
                      | Some (v, tail') =>
                          match skip_ws tail' with
                          | String c rest' =>
                              if (code c =? 44)%N then
                                read_members fuel' (set_prop k v acc) (skip_ws rest')
                              else if (code c =? 125)%N then
                                Some (JObj (set_prop k v acc), rest')
                              else None
                          | EmptyString => None
                          end
                      | None => None
                      end
                    else None
                | EmptyString => None
                end
            | None => None
            end
          else None
      | EmptyString => None
      end
  end.

Definition parse (text : string) : option JSON :=
  match read_value (2 * String.length text + 2) text with
  | Some (v, tail) =>
      match skip_ws tail with
      | EmptyString => Some v
      | String _ _ => None
      end
  | None => None
  end.

End JsonReader.

(** ** POSIX [path.join] *)

Module Path.

(** The segments of a path, split at every slash. *)
Fixpoint split (cur : string) (s : string) : list string :=
  match s with
  | EmptyString => [cur]
  | String c rest =>
      if Ascii.eqb c "/" then cur :: split "" rest
      else split (cur +:+ String c "") rest
  end.

(** normalizeString: drop empty and [.] segments, let [..] cancel the
    segment before it; [..] at the front of a relative path stays.
    [acc] holds the segments kept so far, last one first. *)
Fixpoint resolve (absolute : bool) (acc : list string) (segs : list string)
  : list string :=
  match segs with
  | [] => rev acc
  | seg :: rest =>
      if String.eqb seg "" || String.eqb seg "." then resolve absolute acc rest
      else if String.eqb seg ".." then
        match acc with
        | [] => resolve absolute (if absolute then [] else [".."]) rest
        | top :: acc' =>
            if String.eqb top ".." then resolve absolute (seg :: acc) rest
            else resolve absolute acc' rest
        end
      else resolve absolute (seg :: acc) rest
  end.

Definition last_char (s : string) : option ascii :=
  match rev (list_ascii_of_string s) with
  | c :: _ => Some c
  | [] => None
  end.

Definition normalize (p : string) : string :=
  let absolute := match p with String c _ => Ascii.eqb c "/" | _ => false end in
  let trailing := match last_char p with Some c => Ascii.eqb c "/" | None => false end in
  let body := Json.join "/" (resolve absolute [] (split "" p)) in
  let body := if String.eqb body "" then (if absolute then "" else ".") else body in
  let body := if trailing && negb (String.eqb body "") && negb (String.eqb body ".")
              then body +:+ "/"
              else if trailing && String.eqb body "." then "./" else body in
  if absolute then "/" +:+ body else body.

Definition join (a b : string) : string :=
  if String.eqb a "" then (if String.eqb b "" then "." else normalize b)
  else if String.eqb b "" then normalize a
  else normalize (a +:+ "/" +:+ b).

End Path.

(** ** A platform to run examples on

    Node.js as far as the examples reach: POSIX paths, the JSON reader above,
    SHA-256 for the one configured digest.  No string is read as a date, so
    the examples use numeric timestamps, or strings that are no date in any
    engine.  Network answers and write failures are the example's own. *)

Definition examplePlatform (responses : string -> Result JSON)
    (write_errors : string -> option string) : Platform := {|
  path_join := Path.join;
  Date_parse := fun _ => None;
  JSON_parse := JsonReader.parse;
  axios_get := responses;
  fs_write_error := write_errors;
  crypto_digest_hex := fun algorithm data =>
    if String.eqb algorithm "sha256" then OK (SHA256.hex data)
    else Threw (Error "Digest method not supported")
|}.

Definition emptyWorld : World := {| files := ∅; console := []; requests := [] |}.

(** ** Notions the statements use *)

(** The world that holds the files [fs] and nothing else. *)
Definition blank (fs : gmap string string) : World :=
  {| files := fs; console := []; requests := [] |}.

(** [w], followed by what a run that started from its files did. *)
Definition extend_world (w w0 : World) : World :=
  {| files := files w0;
     console := console w ++ console w0;
     requests := requests w ++ requests w0 |}.

(** A computation reads nothing of the world but its files, and only adds
    to the console and to the request log. *)
Definition local {A} (m : M A) : Prop :=
  forall w, m w = ((m (blank (files w))).1, extend_world w (m (blank (files w))).2).

(** The configuration with another list of nodes. *)
Definition with_nodes (cfg : Config) (l : list NodeConfig) : Config :=
  {| nodes := l;
     syncInterval := syncInterval cfg;
     dataDirectory := dataDirectory cfg;
     hashAlgorithm := hashAlgorithm cfg;
     conflictResolution := conflictResolution cfg |}.

(** What one iteration reports about its node, as read off the console:
    the last line it prints is either the success line or the line of the
    [catch]. *)
Record SyncOutcome : Type := {
  peerName : string;
  succeeded : bool;
  errorDetail : option exn
}.

Definition outcome_of_line (line : ConsoleLine) : option SyncOutcome :=
  match line with
  | Out text =>
      match drop_prefix "Data synchronized for " text with
      | Some peer => Some {| peerName := peer; succeeded := true; errorDetail := None |}
      | None => None
      end
  | ErrWith text e =>
      match drop_prefix "Error synchronizing data for " text with
      | Some rest =>
          Some {| peerName := drop_last rest; succeeded := false; errorDetail := Some e |}
      | None => None
      end
  | Err _ => None
  end.

(** The outcomes a stretch of console output reports, in order. *)
Definition outcomes (lines : list ConsoleLine) : list SyncOutcome :=
  omap outcome_of_line lines.

Section Decision.
Context (P : Platform) (cfg : Config).

(** The text one iteration decides to write for [n] when the file of [n]
    holds [old]: the fetched document, or the winner of the resolution. *)
Definition resolved_text (n : NodeConfig) (old : option string) : Result string :=
  match axios_get P (url n) with
  | Threw e => Threw e
  | OK remoteData =>
      match old with
      | None => OK (JSON_stringify remoteData)
      | Some text =>
          match JSON_parse P text with
          | None => Threw SyntaxError
          | Some localData =>
              if Json.truthy localData then
                match resolveConflict P cfg localData remoteData with
                | OK resolvedData => OK (JSON_stringify resolvedData)
                | Threw e => Threw e
                end
              else OK (JSON_stringify remoteData)
          end
      end
  end.

(** How the [try] block for [n] ends. *)
Definition attempt (n : NodeConfig) (old : option string) : Result string :=
  match resolved_text n old with
  | Threw e => Threw e
  | OK text =>
      match fs_write_error P (localFilePath P cfg n) with
      | Some code => Threw (SystemError code)
      | None => OK text
      end
  end.

(** The files after the iteration for [n], from the files before it. *)
Definition step_files (n : NodeConfig) (fs : gmap string string)
  : gmap string string :=
  match attempt n (fs !! localFilePath P cfg n) with
  | OK text => <[localFilePath P cfg n := text]> fs
  | Threw _ => fs
  end.

Definition cycle_files (l : list NodeConfig) (fs : gmap string string)
  : gmap string string :=
  fold_left (fun fs n => step_files n fs) l fs.

Definition outcome_of (n : NodeConfig) (r : Result string) : SyncOutcome :=
  {| peerName := name n;
     succeeded := match r with OK _ => true | Threw _ => false end;
     errorDetail := match r with OK _ => None | Threw e => Some e end |}.

Fixpoint cycle_outcomes (l : list NodeConfig) (fs : gmap string string)
  : list SyncOutcome :=
  match l with
  | [] => []
  | n :: rest =>
      outcome_of n (attempt n (fs !! localFilePath P cfg n))
      :: cycle_outcomes rest (step_files n fs)
  end.
End Decision.

(** The lines [m] prints when run from [w]. *)
Definition printed {A} (m : M A) (w : World) : list ConsoleLine :=
  drop (length (console w)) (console (exec m w)).

(** ** Examples *)

Module Example.

(** JSON text written with apostrophes for its double quotes. *)
Fixpoint json_text (s : string) : string :=
  match s with
  | EmptyString => ""
  | String c rest =>
      String (if Ascii.eqb c "'" then Json.dquote else c) (json_text rest)
  end.

Definition nodeA : NodeConfig := {| name := "NodeA"; url := "http://a.example/sync" |}.
Definition nodeB : NodeConfig := {| name := "NodeB"; url := "http://b.example/sync" |}.
Definition nodeC : NodeConfig := {| name := "NodeC"; url := "http://c.example/sync" |}.
Definition nodeD : NodeConfig := {| name := "NodeD"; url := "http://d.example/sync" |}.

Definition recordX : JSON := JObj [("timestamp", JNum 100); ("value", JStr "x")].
Definition recordY : JSON := JObj [("timestamp", JNum 200); ("value", JStr "y")].
Definition recordZ : JSON := JObj [("timestamp", JNum 300); ("value", JStr "z")].

(** A record whose timestamp is missing. *)
Definition untimed : JSON := JObj [("value", JStr "y")].

(** *** Three nodes, the second of which is down *)

(** A answers with [recordX], C with [recordZ], nobody else answers. *)
Definition responses (u : string) : Result JSON :=
  if String.eqb u (url nodeA) then OK recordX
  else if String.eqb u (url nodeC) then OK recordZ
  else Threw (AxiosError "connect ECONNREFUSED").

Definition platform : Platform := examplePlatform responses (fun _ => None).

Definition config : Config := with_nodes CONFIG [nodeA; nodeB; nodeC].

(** *** One node *)

(** The module's configuration with the one node A. *)
Definition onlyA : Config := with_nodes CONFIG [nodeA].

(** The same, under a policy the module does not know. *)
Definition unsupported : Config :=
  {| nodes := [nodeA];
     syncInterval := 60000;
     dataDirectory := "./data";
     hashAlgorithm := "sha256";
     conflictResolution := "newest-first" |}.

(** The store in which the local record of A is newer than what A answers:
    the record with timestamp 200, on one line. *)
Definition newerLocal : World :=
  {| files := {[ "data/NodeA_data.json" := json_text "{'timestamp': 200, 'value': 'y'}" ]};
     console := [];
     requests := [] |}.

(** A gateway that answers every request with a page of markup, which
    [axios] hands over as a string. *)
Definition gateway : Platform :=
  examplePlatform (fun _ => OK (JStr "<html>502 Bad Gateway</html>")) (fun _ => None).

(** *** Four nodes, three of which fail after their fetch *)

(** The local file of A is not JSON, B answers [null] while a local record
    exists, and the file of C cannot be written. *)
Definition troubled : Platform :=
  examplePlatform
    (fun u => if String.eqb u (url nodeB) then OK JNull else OK recordX)
    (fun path => if String.eqb path "data/NodeC_data.json" then Some "EACCES" else None).

Definition fourNodes : Config := with_nodes CONFIG [nodeA; nodeB; nodeC; nodeD].

Definition troubledStore : World :=
  {| files := {[ "data/NodeA_data.json" := "{not json";
                 "data/NodeB_data.json" := JSON_stringify recordY ]};
     console := [];
     requests := [] |}.

(** *** A stored file to verify *)

(** A store that holds [text] as the data of the first configured node. *)
Definition stored (text : string) : World :=
  {| files := {[ "data/Node_1_data.json" := text ]}; console := []; requests := [] |}.

End Example.

(** ** White space in names *)

Fixpoint all_space (s : string) : bool :=
  match s with
  | EmptyString => true
  | String c rest => is_space c && all_space rest
  end.

Fixpoint no_space (s : string) : bool :=
  match s with
  | EmptyString => true
  | String c rest => negb (is_space c) && no_space rest
  end.

(** ** The Multi-Chain module: transaction log and retry loop

    The second script of [src/examples/optimize_gas.js] sends a signed
    transaction to Ethereum or Solana, up to [CONFIG.maxRetries] times, and
    keeps a JSON log of what became of it.  It runs in the same world as
    the Data Syncing module: the request log records every send, by the
    name of its chain. *)

Module MultiChain.

Record Config : Type := {
  ethereumProvider : string;
  solanaCluster : string;
  maxRetries : Z;
  transactionLogPath : string;
  analyticsPath : string
}.

(** [solanaCluster] is what [clusterApiUrl("mainnet-beta")] returns. *)
Definition CONFIG : Config := {|
  ethereumProvider := "https://mainnet.infura.io/v3/YOUR_INFURA_PROJECT_ID";
  solanaCluster := "https://api.mainnet-beta.solana.com";
  maxRetries := 3;
  transactionLogPath := "./transaction_logs.json";
  analyticsPath := "./analytics_logs.json"
|}.

(** The two providers: what a send returns or throws may depend on the
    sends made before it, which the request log holds. *)
Record Providers : Type := {
  (** [await ethProvider.sendTransaction(signedTx)] *)
  eth_sendTransaction : list string -> JSValue -> Result JSON;
  (** [await solanaConnection.sendTransaction(rawTx)] *)
  sol_sendTransaction : list string -> JSValue -> Result JSON;
  (** [error.message] of an error the engine or a package made *)
  engine_message : exn -> string
}.

(** The argument of [sendTransaction]: an object of which the code reads
    [signedTx], [rawTx] and [id]; each may be [undefined]. *)
Record Transaction : Type := {
  signedTx : JSValue;
  rawTx : JSValue;
  id : JSValue
}.

Record TransactionProcessor : Type := { chain : string }.

(** An object literal as [JSON.stringify] will print it: a property whose
    value is [undefined] is left out. *)
Fixpoint object (props : list (string * JSValue)) : list (string * JSON) :=
  match props with
  | [] => []
  | (k, Some v) :: rest => (k, v) :: object rest
  | (_, None) :: rest => object rest
  end.

Section Program.

Context (P : Platform) (N : Providers) (cfg : Config).

(** [error.message] *)
Definition message (e : exn) : string :=
  match e with
  | Error m => m
  | _ => engine_message N e
  end.

(** A send on [chain]: the request log gets the name of the chain. *)
Definition provider_send (chainName : string)
    (send : list string -> JSValue -> Result JSON) (payload : JSValue) : M JSON :=
  fun w => (send (requests w) payload,
            {| files := files w;
               console := console w;
               requests := requests w ++ [chainName] |}).

(** [response.hash]; reading a property of [null] throws. *)
Definition hash_of (response : JSON) : Result JSValue :=
  match response with
  | JNull => Threw TypeError
  | _ => OK (Json.get response "hash")
  end.

(** [log.push(entry)]: only an array has [push]. *)
Definition push (log entry : JSON) : Result JSON :=
  match log with
  | JArr elems => OK (JArr (elems ++ [entry]))
  | _ => Threw TypeError
  end.

(** The logging utility, for the log at [path]. *)
Definition logTo (path : string) (entry : JSON) : M unit :=
  found <- fs_existsSync path ;;
  log <- (if found : bool
          then text <- fs_readFileSync path ;; parse P text
          else ret (JArr [])) ;;
  log' <- lift (push log entry) ;;
  fs_writeFileSync P path (JSON_stringify log').

Definition logTransaction (transaction : JSON) : M unit :=
  logTo (transactionLogPath cfg) transaction.

Definition logAnalytics (analytics : JSON) : M unit :=
  logTo (analyticsPath cfg) analytics.

(** The [try] block of one attempt; it returns what [sendTransaction]
    returns. *)
Definition attempt_body (this : TransactionProcessor) (transaction : Transaction)
    (attempt : Z) : M JSON :=
  console_log ("Processing transaction on " +:+ chain this
               +:+ " - Attempt " +:+ Json.digits attempt) ;;
  if String.eqb (chain this) "Ethereum" then
    response <- provider_send "Ethereum" (eth_sendTransaction N) (signedTx transaction) ;;
    txHash <- lift (hash_of response) ;;
    logTransaction (JObj (object [("chain", Some (JStr "Ethereum"));
                                  ("txHash", txHash);
                                  ("status", Some (JStr "success"))])) ;;
    ret response
  else if String.eqb (chain this) "Solana" then
    signature <- provider_send "Solana" (sol_sendTransaction N) (rawTx transaction) ;;
    logTransaction (JObj (object [("chain", Some (JStr "Solana"));
                                  ("txHash", Some signature);
                                  ("status", Some (JStr "success"))])) ;;
    ret signature
  else throw (Error "Unsupported chain").

(** The [catch] block of one attempt. *)
Definition attempt_catch (this : TransactionProcessor) (transaction : Transaction)
    (attempt : Z) (error : exn) : M unit :=
  console_error ("Error during attempt " +:+ Json.digits attempt +:+ ": "
                 +:+ message error) ;;
  if attempt =? maxRetries cfg then
    logTransaction (JObj (object [("chain", Some (JStr (chain this)));
                                  ("txHash", id transaction);
                                  ("status", Some (JStr "failed"));
                                  ("error", Some (JStr (message error)))])) ;;
    throw error
  else ret tt.

(** One turn of the loop: [Some response] when the [try] block returned,
    [None] when the [catch] block ran and did not throw. *)
Definition attempt_once (this : TransactionProcessor) (transaction : Transaction)
    (attempt : Z) : M JSValue :=
  try_catch
    (response <- attempt_body this transaction attempt ;; ret (Some response))
    (fun error => attempt_catch this transaction attempt error ;; ret None).

(** The loop from [attempt] on, with [remaining] iterations to go.  It
    returns [undefined] when it runs out. *)
Fixpoint attempts (this : TransactionProcessor) (transaction : Transaction)
    (remaining : nat) (attempt : Z) : M JSValue :=
  match remaining with
  | O => ret None
  | S remaining' =>
      returned <- attempt_once this transaction attempt ;;
      match returned with
      | Some response => ret (Some response)
      | None => attempts this transaction remaining' (attempt + 1)
      end
  end.

Definition sendTransaction (this : TransactionProcessor) (transaction : Transaction)
  : M JSValue :=
  attempts this transaction (Z.to_nat (maxRetries cfg)) 1.

(** What a turn prints, and the entries it logs. *)
Definition processing (this : TransactionProcessor) (attempt : Z) : ConsoleLine :=
  Out ("Processing transaction on " +:+ chain this +:+ " - Attempt "
       +:+ Json.digits attempt).

Definition failing (attempt : Z) (e : exn) : ConsoleLine :=
  Err ("Error during attempt " +:+ Json.digits attempt +:+ ": " +:+ message e).

Definition failedEntry (this : TransactionProcessor) (transaction : Transaction)
    (e : exn) : JSON :=
  JObj (object [("chain", Some (JStr (chain this)));
                ("txHash", id transaction);
                ("status", Some (JStr "failed"));
                ("error", Some (JStr (message e)))]).

Definition successEntry (response : JSON) : JSON :=
  JObj (object [("chain", Some (JStr "Ethereum"));
                ("txHash", Json.get response "hash");
                ("status", Some (JStr "success"))]).

End Program.

End MultiChain.

(** ** The contract ZenoDecentralizedOracle

    The Solidity contract at the end of [src/examples/optimize_gas.js].
    A [uint256] is a natural number below [2^256]; under Solidity 0.8 an
    increment or decrement that would leave that range panics and the call
    reverts.  An address is a number.  A mapping is a finite map read with
    a default: a key never written holds the zero value of its type.  A
    call either returns, with the new state and the events it emitted, or
    reverts, and then the state is the one before the call.  The balance
    is not bounded in the model; on chain the supply of ether keeps it far
    below [2^256]. *)

Module Oracle.

Local Open Scope N_scope.

Definition address := N.

Definition MAX_UINT256 : N := 2 ^ 256 - 1.

Record DataRequest : Type := {
  id : N;
  requester : address;
  query : string;
  createdAt : N;
  fulfilled : bool;
  result : string
}.

Record OracleNode : Type := {
  nodeAddress : address;
  reputation : N;
  active : bool
}.

(** The zero values a mapping holds at a key never written. *)
Definition noRequest : DataRequest :=
  {| id := 0; requester := 0; query := ""; createdAt := 0;
     fulfilled := false; result := "" |}.

Definition noNode : OracleNode :=
  {| nodeAddress := 0; reputation := 0; active := false |}.

Record State : Type := {
  owner : address;
  dataRequestFee : N;
  requestIdCounter : N;
  dataRequests : gmap N DataRequest;
  oracleNodes : gmap N OracleNode;
  totalActiveNodes : N;
  (** [address(this).balance] *)
  balance : N
}.

(** [dataRequests[k]] and [oracleNodes[a]] *)
Definition request_at (s : State) (k : N) : DataRequest :=
  default noRequest (dataRequests s !! k).

Definition node_at (s : State) (a : address) : OracleNode :=
  default noNode (oracleNodes s !! a).

Inductive Event : Type :=
  | DataRequested (requestId : N) (requester : address) (query : string)
  | DataFulfilled (requestId : N) (result : string) (oracleNode : address)
  | OracleNodeRegistered (nodeAddress : address)
  | OracleNodeDeactivated (nodeAddress : address)
  | OracleReputationUpdated (nodeAddress : address) (newReputation : N).

(** What a call sees of its transaction and block. *)
Record Msg : Type := {
  sender : address;
  value : N;
  timestamp : N
}.

Inductive Outcome (A : Type) : Type :=
  | Returns (a : A) (s : State) (events : list Event)
  | Reverts (reason : string)     (* [require] failed, or [revert] *)
  | Panics (code : N).            (* 0x11: arithmetic out of range *)
Arguments Returns {A} a s events.
Arguments Reverts {A} reason.
Arguments Panics {A} code.

(** [x++] and [x--] on a [uint256] *)
Definition increment (x : N) : option N :=
  if x <? MAX_UINT256 then Some (x + 1) else None.

Definition decrement (x : N) : option N :=
  if 0 <? x then Some (x - 1) else None.

(** A function that is not [payable] reverts, without a reason, when it is
    sent ether. *)
Definition nonpayable {A} (msg : Msg) (body : Outcome A) : Outcome A :=
  if value msg =? 0 then body else Reverts "".


(** [constructor(uint256 _dataRequestFee)]; [funds] is what the address
    held before the contract was created there. *)
Definition constructor (msg : Msg) (funds : N) (_dataRequestFee : N) : Outcome unit :=
  nonpayable msg
    (Returns tt
       {| owner := sender msg;
          dataRequestFee := _dataRequestFee;
          requestIdCounter := 0;
          dataRequests := ∅;
          oracleNodes := ∅;
          totalActiveNodes := 0;
          balance := funds |} []).

Definition requestData (msg : Msg) (query : string) (s : State) : Outcome unit :=
  if negb (dataRequestFee s <=? value msg) then Reverts "Insufficient fee"
  else
    match increment (requestIdCounter s) with
    | None => Panics 0x11
    | Some newRequestId =>
        Returns tt
          {| owner := owner s;
             dataRequestFee := dataRequestFee s;
             requestIdCounter := newRequestId;
             dataRequests :=
               <[newRequestId := {| id := newRequestId;
                                    requester := sender msg;
                                    query := query;
                                    createdAt := timestamp msg;
                                    fulfilled := false;
                                    result := "" |}]> (dataRequests s);
             oracleNodes := oracleNodes s;
             totalActiveNodes := totalActiveNodes s;
             balance := balance s + value msg |}
          [DataRequested newRequestId (sender msg) query]
    end.

Definition fulfillDataRequest (msg : Msg) (requestId : N) (result : string)
    (s : State) : Outcome unit :=
  nonpayable msg
    (if negb (active (node_at s (sender msg))) then Reverts "Not an active oracle node"
     else
       let request := request_at s requestId in
       if fulfilled request then Reverts "Request already fulfilled"
       else
         let node := node_at s (sender msg) in
         match increment (reputation node) with
         | None => Panics 0x11
         | Some newReputation =>
             Returns tt
               {| owner := owner s;
                  dataRequestFee := dataRequestFee s;
                  requestIdCounter := requestIdCounter s;
                  dataRequests :=
                    <[requestId := {| id := id request;
                                      requester := requester request;
                                      query := query request;
                                      createdAt := createdAt request;
                                      fulfilled := true;
                                      result := result |}]> (dataRequests s);
                  oracleNodes :=
                    <[sender msg := {| nodeAddress := nodeAddress node;
                                       reputation := newReputation;
                                       active := active node |}]> (oracleNodes s);
                  totalActiveNodes := totalActiveNodes s;
                  balance := balance s |}
               [DataFulfilled requestId result (sender msg);
                OracleReputationUpdated (sender msg) newReputation]
         end).

Definition registerOracleNode (msg : Msg) (a : address) (s : State) : Outcome unit :=
  nonpayable msg
    (if negb (sender msg =? owner s) then Reverts "Not authorized"
     else if active (node_at s a) then Reverts "Node already active"
     else
       match increment (totalActiveNodes s) with
       | None => Panics 0x11
       | Some total =>
           Returns tt
             {| owner := owner s;
                dataRequestFee := dataRequestFee s;
                requestIdCounter := requestIdCounter s;
                dataRequests := dataRequests s;
                oracleNodes :=
                  <[a := {| nodeAddress := a; reputation := 0; active := true |}]>
                    (oracleNodes s);
                totalActiveNodes := total;
                balance := balance s |}
             [OracleNodeRegistered a]
       end).

Definition deactivateOracleNode (msg : Msg) (a : address) (s : State) : Outcome unit :=
  nonpayable msg
    (if negb (sender msg =? owner s) then Reverts "Not authorized"
     else if negb (active (node_at s a)) then Reverts "Node is not active"
     else
       match decrement (totalActiveNodes s) with
       | None => Panics 0x11
       | Some total =>
           let node := node_at s a in
           Returns tt
             {| owner := owner s;
                dataRequestFee := dataRequestFee s;
                requestIdCounter := requestIdCounter s;
                dataRequests := dataRequests s;
                oracleNodes :=
                  <[a := {| nodeAddress := nodeAddress node;
                            reputation := reputation node;
                            active := false |}]> (oracleNodes s);
                totalActiveNodes := total;
                balance := balance s |}
             [OracleNodeDeactivated a]
       end).

Definition updateDataRequestFee (msg : Msg) (newFee : N) (s : State) : Outcome unit :=
  nonpayable msg
    (if negb (sender msg =? owner s) then Reverts "Not authorized"
     else
       Returns tt
         {| owner := owner s;
            dataRequestFee := newFee;
            requestIdCounter := requestIdCounter s;
            dataRequests := dataRequests s;
            oracleNodes := oracleNodes s;
            totalActiveNodes := totalActiveNodes s;
            balance := balance s |} []).

Definition getDataRequest (msg : Msg) (requestId : N) (s : State) : Outcome DataRequest :=
  nonpayable msg (Returns (request_at s requestId) s []).

(** [payable(owner).transfer(address(this).balance)]; [accepted] tells
    whether the owner's address takes the ether.  A refused transfer
    reverts. *)
Definition withdrawFees (msg : Msg) (accepted : bool) (s : State) : Outcome unit :=
  nonpayable msg
    (if negb (sender msg =? owner s) then Reverts "Not authorized"
     else if negb accepted then Reverts ""
     else
       Returns tt
         {| owner := owner s;
            dataRequestFee := dataRequestFee s;
            requestIdCounter := requestIdCounter s;
            dataRequests := dataRequests s;
            oracleNodes := oracleNodes s;
            totalActiveNodes := totalActiveNodes s;
            balance := 0 |} []).

(** [fallback() external payable]: a call that names no function of the
    contract. *)
Definition fallback (msg : Msg) (s : State) : Outcome unit :=
  Reverts "Direct ETH transfers not allowed".

(** [receive() external payable]: a plain transfer of ether. *)
Definition receive (msg : Msg) (s : State) : Outcome unit :=
  Returns tt
    {| owner := owner s;
       dataRequestFee := dataRequestFee s;
       requestIdCounter := requestIdCounter s;
       dataRequests := dataRequests s;
       oracleNodes := oracleNodes s;
       totalActiveNodes := totalActiveNodes s;
       balance := balance s + value msg |} [].

(** *** Sequences of calls *)

Inductive Call : Type :=
  | CallRequestData (query : string)
  | CallFulfillDataRequest (requestId : N) (result : string)
  | CallRegisterOracleNode (a : address)
  | CallDeactivateOracleNode (a : address)
  | CallUpdateDataRequestFee (newFee : N)
  | CallGetDataRequest (requestId : N)
  | CallWithdrawFees (accepted : bool)
  | CallFallback
  | CallReceive.

Definition state_after {A} (o : Outcome A) (s : State) : State :=
  match o with
  | Returns _ s' _ => s'
  | Reverts _ | Panics _ => s
  end.

(** The state a transaction leaves: the new one if the call returns, the
    old one if it reverts. *)
Definition step (s : State) (tx : Msg * Call) : State :=
  let (msg, call) := tx in
  match call with
  | CallRequestData q => state_after (requestData msg q s) s
  | CallFulfillDataRequest k r => state_after (fulfillDataRequest msg k r s) s
  | CallRegisterOracleNode a => state_after (registerOracleNode msg a s) s
  | CallDeactivateOracleNode a => state_after (deactivateOracleNode msg a s) s
  | CallUpdateDataRequestFee f => state_after (updateDataRequestFee msg f s) s
  | CallGetDataRequest k => state_after (getDataRequest msg k s) s
  | CallWithdrawFees accepted => state_after (withdrawFees msg accepted s) s
  | CallFallback => state_after (fallback msg s) s
  | CallReceive => state_after (receive msg s) s
  end.

Definition run (s : State) (txs : list (Msg * Call)) : State := fold_left step txs s.

(** The nodes that are active. *)
Definition activeNodes (s : State) : gmap N OracleNode :=
  filter (fun kv => active kv.2 = true) (oracleNodes s).

(** [totalActiveNodes] is the number of active nodes. *)
Definition counted (s : State) : Prop :=
  totalActiveNodes s = N.of_nat (size (activeNodes s)).

(** The requests made so far are stored under their ids, 1 to
    [requestIdCounter]; any other key holds id zero. *)
Definition numbered (s : State) : Prop :=
  forall k, id (request_at s k)
            = if (0 <? k) && (k <=? requestIdCounter s) then k else 0.

End Oracle.

(** ** Examples for the Multi-Chain module and the contract *)

Module MultiChainExample.

Import MultiChain.

(** The transaction and the processor of the script's own example run. *)
Definition ethTx : Transaction :=
  {| signedTx := Some (JStr "0x1234abcd"); rawTx := None; id := None |}.

Definition ethProcessor : TransactionProcessor := {| chain := "Ethereum" |}.

Definition polygonProcessor : TransactionProcessor := {| chain := "Polygon" |}.

Definition receipt : JSON := JObj [("hash", JStr "0xfeed")].

Definition engineMessage (e : exn) : string :=
  match e with
  | Error m | AxiosError m => m
  | TypeError => "Cannot read properties of null"
  | SyntaxError => "Unexpected token in JSON"
  | SystemError code => code
  end.

(** Three networks: one that is down, one that answers the third send,
    one that answers every send. *)
Definition down : Providers := {|
  eth_sendTransaction := fun _ _ => Threw (Error "could not detect network");
  sol_sendTransaction := fun _ _ => Threw (Error "could not detect network");
  engine_message := engineMessage
|}.

Definition flaky : Providers := {|
  eth_sendTransaction := fun history _ =>
    if (length history <? 2)%nat then Threw (Error "timeout") else OK receipt;
  sol_sendTransaction := fun _ _ => Threw (Error "timeout");
  engine_message := engineMessage
|}.

Definition up : Providers := {|
  eth_sendTransaction := fun _ _ => OK receipt;
  sol_sendTransaction := fun _ _ => OK (JStr "5VERv8NMvzbJMEkV");
  engine_message := engineMessage
|}.

(** A file system on which the transaction log cannot be written. *)
Definition readOnly : Platform :=
  examplePlatform Example.responses
    (fun p => if String.eqb p "./transaction_logs.json" then Some "EACCES" else None).

End MultiChainExample.

Module OracleExample.

Import Oracle.
Local Open Scope N_scope.

Definition byOwner : Msg := {| sender := 1; value := 0; timestamp := 100 |}.
Definition byNode : Msg := {| sender := 2; value := 0; timestamp := 300 |}.
Definition byUser : Msg := {| sender := 3; value := 5; timestamp := 200 |}.

(** The contract as [byOwner] deploys it with a fee of 5. *)
Definition deployed : State :=
  {| owner := 1; dataRequestFee := 5; requestIdCounter := 0;
     dataRequests := ∅; oracleNodes := ∅; totalActiveNodes := 0; balance := 0 |}.

(** Node 2 is registered, a user asks, node 2 answers; node 4 is
    registered and taken out again. *)
Definition history : list (Msg * Call) :=
  [(byOwner, CallRegisterOracleNode 2);
   (byUser, CallRequestData "ETH/USD");
   (byNode, CallFulfillDataRequest 1 "3000");
   (byOwner, CallRegisterOracleNode 4);
   (byOwner, CallDeactivateOracleNode 4)].

Definition later : list (Msg * Call) :=
  [(byUser, CallRequestData "BTC/USD");
   (byNode, CallFulfillDataRequest 1 "2999");
   (byOwner, CallDeactivateOracleNode 2)].

(** What someone who is not the owner may try. *)
Definition meddling : list (Msg * Call) :=
  [(byUser, CallWithdrawFees true);
   (byUser, CallUpdateDataRequestFee 0);
   (byNode, CallRegisterOracleNode 2);
   (byUser, CallDeactivateOracleNode 2);
   (byUser, CallRequestData "ETH/USD");
   (byUser, CallReceive)].

End OracleExample.

(** * Properties *)

(** ** Worlds *)

Lemma extend_world_assoc (w w0 w1 : World) :
  extend_world (extend_world w w0) w1 = extend_world w (extend_world w0 w1).
Proof. unfold extend_world; simpl. by rewrite !app_assoc. Qed.

Lemma extend_blank (w : World) : extend_world w (blank (files w)) = w.
Proof. destruct w; unfold extend_world, blank; simpl. by rewrite !app_nil_r. Qed.

(** ** Locality is preserved by every way of building a computation *)

Lemma local_ret {A} (a : A) : local (ret a).
Proof. intros w. unfold ret; simpl. by rewrite extend_blank. Qed.

Lemma local_throw {A} (e : exn) : local (@throw A e).
Proof. intros w. unfold throw; simpl. by rewrite extend_blank. Qed.

Lemma local_lift {A} (r : Result A) : local (lift r).
Proof. intros w. unfold lift; simpl. by rewrite extend_blank. Qed.

Lemma local_bind {A B} (m : M A) (k : A -> M B) :
  local m -> (forall a, local (k a)) -> local (bind m k).
Proof.
  intros Hm Hk w. unfold bind. rewrite (Hm w).
  destruct (m (blank (files w))) as [[a|e] w0]; simpl; [|done].
  rewrite (Hk a (extend_world w w0)), (Hk a w0); simpl.
  by rewrite extend_world_assoc.
Qed.

Lemma local_try_catch {A} (m : M A) (h : exn -> M A) :
  local m -> (forall e, local (h e)) -> local (try_catch m h).
Proof.
  intros Hm Hh w. unfold try_catch. rewrite (Hm w).
  destruct (m (blank (files w))) as [[a|e] w0]; simpl; [done|].
  rewrite (Hh e (extend_world w w0)), (Hh e w0); simpl.
  by rewrite extend_world_assoc.
Qed.

Lemma local_if {A} (b : bool) (m1 m2 : M A) :
  local m1 -> local m2 -> local (if b then m1 else m2).
Proof. by destruct b. Qed.

Section Locality.

Context (P : Platform) (cfg : Config).

Lemma local_console_log text : local (console_log text).
Proof. intros w. unfold console_log, extend_world; simpl. by rewrite app_nil_r. Qed.

Lemma local_console_error text : local (console_error text).
Proof. intros w. unfold console_error, extend_world; simpl. by rewrite app_nil_r. Qed.

Lemma local_console_error_with text e : local (console_error_with text e).
Proof. intros w. unfold console_error_with, extend_world; simpl. by rewrite app_nil_r. Qed.

Lemma local_axios_get_data u : local (axios_get_data P u).
Proof. intros w. unfold axios_get_data, extend_world; simpl. by rewrite app_nil_r. Qed.

Lemma local_fs_existsSync path : local (fs_existsSync path).
Proof. intros w. unfold fs_existsSync; simpl. by rewrite extend_blank. Qed.

Lemma local_fs_readFileSync path : local (fs_readFileSync path).
Proof.
  intros w. unfold fs_readFileSync; simpl.
  destruct (files w !! path); simpl; by rewrite extend_blank.
Qed.

Lemma local_fs_writeFileSync path data : local (fs_writeFileSync P path data).
Proof.
  intros w. unfold fs_writeFileSync; simpl.
  destruct (fs_write_error P path); simpl; [by rewrite extend_blank|].
  unfold extend_world; simpl. by rewrite !app_nil_r.
Qed.

Lemma local_parse text : local (parse P text).
Proof. unfold parse. destruct (JSON_parse P text); [apply local_ret|apply local_throw]. Qed.

End Locality.

Create HintDb local discriminated.
#[export] Hint Resolve local_ret local_throw local_lift local_bind local_try_catch
  local_if local_console_log local_console_error local_console_error_with
  local_axios_get_data local_fs_existsSync local_fs_readFileSync
  local_fs_writeFileSync local_parse : local.

(** ** Every function of the module is local *)

Section Programs.

Context (P : Platform) (cfg : Config).

Lemma local_saveDataToFile f d : local (saveDataToFile P cfg f d).
Proof. unfold saveDataToFile. auto with local. Qed.

Lemma local_loadDataFromFile f : local (loadDataFromFile P cfg f).
Proof.
  unfold loadDataFromFile. apply local_bind; [auto with local|].
  intros []; auto with local.
Qed.

Lemma local_fetchData n : local (fetchData P n).
Proof. unfold fetchData. auto 10 with local. Qed.

Lemma local_syncNode_body n : local (syncNode_body P cfg n).
Proof.
  unfold syncNode_body.
  apply local_bind; [apply local_fetchData|]; intros remote.
  apply local_bind; [auto with local|]; intros found.
  apply local_bind.
  { destruct found; [|auto with local].
    apply local_bind; [apply local_loadDataFromFile|auto with local]. }
  intros l. apply local_bind; [|auto with local].
  destruct (Json.truthy l); [|apply local_saveDataToFile].
  apply local_bind; [auto with local|]. intros; apply local_saveDataToFile.
Qed.

Lemma local_syncNode n : local (syncNode P cfg n).
Proof. unfold syncNode. apply local_try_catch; [apply local_syncNode_body|auto with local]. Qed.

Lemma local_for_each {A} (l : list A) (body : A -> M unit) :
  (forall x, local (body x)) -> local (for_each l body).
Proof. intros H. induction l; simpl; auto with local. Qed.

Lemma local_synchronizeData : local (synchronizeData P cfg).
Proof.
  unfold synchronizeData.
  apply local_bind; [auto with local|]; intros _.
  apply local_bind; [|auto with local].
  apply local_for_each, local_syncNode.
Qed.

End Programs.

(** ** One iteration of the loop

    [run] unfolds the program down to the platform calls, [cases] splits on
    every answer of the platform that the goal waits for, and [steps]
    rewrites with the answers that the hypotheses give. *)

Ltac run :=
  unfold exec, result, synchronizeData, verifyIntegrity, syncNode, syncNode_body,
    fetchData, saveDataToFile, loadDataFromFile, parse, try_catch, bind, ret,
    throw, lift, console_log, console_error, console_error_with, axios_get_data,
    fs_existsSync, fs_readFileSync, fs_writeFileSync in *;
  cbn [fst snd files console requests node fileName] in *.

Ltac cases :=
  repeat (case_match; simplify_eq; cbn [fst snd files console requests node fileName] in * ).

Ltac steps :=
  repeat (match goal with H : _ = _ |- _ => rewrite H end;
          change (Json.truthy JNull) with false;
          cbn [fst snd files console requests node fileName]);
  rewrite <- ?app_assoc.

Section Step.

Context (P : Platform) (cfg : Config).

(** The [try] block ends as [attempt] says, and the iteration leaves the
    files that [step_files] computes. *)
Lemma syncNode_body_result n w :
  result (syncNode_body P cfg n) w
  = match attempt P cfg n (files w !! localFilePath P cfg n) with
    | OK _ => OK tt
    | Threw e => Threw e
    end.
Proof.
  unfold attempt, resolved_text, localFilePath. run.
  destruct (axios_get P (url n)); cbn [fst snd files]; [|done].
  destruct (files w !! _) eqn:E; cbn [fst snd files]; rewrite ?E; cbn [fst snd files].
  - cases; done.
  - cases; done.
Qed.

Lemma syncNode_files n w :
  files (exec (syncNode P cfg n) w) = step_files P cfg n (files w).
Proof.
  unfold step_files, attempt, resolved_text, localFilePath. run.
  destruct (axios_get P (url n)); cbn [fst snd files]; [|done].
  destruct (files w !! _) eqn:E; cbn [fst snd files]; rewrite ?E; cbn [fst snd files].
  - cases; done.
  - cases; done.
Qed.

Lemma syncNode_result n w : result (syncNode P cfg n) w = OK tt.
Proof. run. cases; done. Qed.

Lemma syncNode_requests n w :
  requests (exec (syncNode P cfg n) w) = requests w ++ [url n].
Proof. run. cases; done. Qed.

(** *** What the iteration prints *)

Lemma drop_prefix_app p s : drop_prefix p (p +:+ s) = Some s.
Proof. induction p as [|c p IH]; simpl; [done|]. by rewrite Ascii.eqb_refl. Qed.

Lemma drop_last_colon s : drop_last (s +:+ ":") = s.
Proof.
  induction s as [|c s IH]; simpl; [done|].
  rewrite IH. by destruct s.
Qed.

Lemma printed_local {A} (m : M A) w :
  local m -> printed m w = console (exec m (blank (files w))).
Proof.
  intros Hm. unfold printed, exec. rewrite (Hm w). simpl.
  by rewrite drop_app_length.
Qed.

Lemma console_local {A} (m : M A) w :
  local m -> console (exec m w) = console w ++ printed m w.
Proof.
  intros Hm. rewrite printed_local by done. unfold exec. by rewrite (Hm w).
Qed.

Lemma outcome_fetched s : outcome_of_line (Out ("Fetched data from " +:+ s)) = None.
Proof. reflexivity. Qed.

Lemma outcome_saved s : outcome_of_line (Out ("Data saved to: " +:+ s)) = None.
Proof. reflexivity. Qed.

Lemma outcome_fetch_error s e :
  outcome_of_line (ErrWith ("Error fetching data from " +:+ s) e) = None.
Proof. reflexivity. Qed.

Lemma outcome_synchronized s :
  outcome_of_line (Out ("Data synchronized for " +:+ s))
  = Some {| peerName := s; succeeded := true; errorDetail := None |}.
Proof. reflexivity. Qed.

Lemma outcome_sync_error s e :
  outcome_of_line (ErrWith ("Error synchronizing data for " +:+ s +:+ ":") e)
  = Some {| peerName := s; succeeded := false; errorDetail := Some e |}.
Proof.
  unfold outcome_of_line. rewrite drop_prefix_app. by rewrite drop_last_colon.
Qed.

Lemma outcomes_app l1 l2 : outcomes (l1 ++ l2) = outcomes l1 ++ outcomes l2.
Proof. apply omap_app. Qed.

Lemma outcomes_cons line l :
  outcomes (line :: l)
  = match outcome_of_line line with Some o => o :: outcomes l | None => outcomes l end.
Proof. reflexivity. Qed.

Lemma syncNode_outcomes n w :
  outcomes (printed (syncNode P cfg n) w)
  = [outcome_of n (attempt P cfg n (files w !! localFilePath P cfg n))].
Proof.
  rewrite printed_local by apply local_syncNode.
  unfold attempt, resolved_text, localFilePath, outcome_of, blank. run.
  destruct (axios_get P (url n)); cbn [fst snd files console app].
  - destruct (files w !! _) eqn:E; cbn [fst snd files console app];
      rewrite ?E; cbn [fst snd files console app];
      cases;
      rewrite ?outcomes_app, ?outcomes_cons, ?outcome_fetched, ?outcome_saved,
        ?outcome_synchronized, ?outcome_sync_error; done.
  - by rewrite !outcomes_cons, outcome_fetch_error, outcome_sync_error.
Qed.

End Step.

(** ** A whole cycle *)

Section Cycle.

Context (P : Platform) (cfg : Config).

Local Abbreviation path := (localFilePath P cfg).
Local Abbreviation loop l := (for_each l (syncNode P cfg)).

(** *** The pure view of a cycle *)

Lemma cycle_files_cons n l fs :
  cycle_files P cfg (n :: l) fs = cycle_files P cfg l (step_files P cfg n fs).
Proof. reflexivity. Qed.

Lemma cycle_files_app l1 l2 fs :
  cycle_files P cfg (l1 ++ l2) fs = cycle_files P cfg l2 (cycle_files P cfg l1 fs).
Proof. apply fold_left_app. Qed.

Lemma cycle_outcomes_app l1 l2 fs :
  cycle_outcomes P cfg (l1 ++ l2) fs
  = cycle_outcomes P cfg l1 fs ++ cycle_outcomes P cfg l2 (cycle_files P cfg l1 fs).
Proof.
  revert fs. induction l1 as [|n l1 IH]; intros fs; simpl; [done|].
  by rewrite IH.
Qed.

Lemma step_files_failed n fs e :
  attempt P cfg n (fs !! path n) = Threw e -> step_files P cfg n fs = fs.
Proof. unfold step_files. by intros ->. Qed.

Lemma step_files_frame n fs p :
  p <> path n -> step_files P cfg n fs !! p = fs !! p.
Proof.
  intros Hp. unfold step_files.
  destruct (attempt _ _ _ _); [|done]. by rewrite lookup_insert_ne.
Qed.

Lemma step_files_own n fs :
  step_files P cfg n fs !! path n
  = match attempt P cfg n (fs !! path n) with
    | OK text => Some text
    | Threw _ => fs !! path n
    end.
Proof.
  unfold step_files. destruct (attempt _ _ _ _); [|done].
  by rewrite lookup_insert_eq.
Qed.

Lemma cycle_files_frame l fs p :
  Forall (fun m => path m <> p) l -> cycle_files P cfg l fs !! p = fs !! p.
Proof.
  revert fs. induction l as [|n l IH]; intros fs Hl; [done|].
  inversion_clear Hl as [|? ? Hn Hrest].
  rewrite cycle_files_cons, IH by done.
  by apply step_files_frame.
Qed.

Lemma cycle_files_own before n after fs :
  Forall (fun m => path m <> path n) (before ++ after) ->
  cycle_files P cfg (before ++ n :: after) fs !! path n
  = step_files P cfg n fs !! path n.
Proof.
  intros [Hb Ha]%Forall_app.
  rewrite cycle_files_app, cycle_files_cons.
  rewrite cycle_files_frame by done.
  rewrite !step_files_own. by rewrite cycle_files_frame.
Qed.

(** *** The loop *)

Lemma loop_cons n l w :
  loop (n :: l) w = loop l (exec (syncNode P cfg n) w).
Proof.
  simpl. unfold bind, exec.
  pose proof (syncNode_result P cfg n w) as Hr. unfold result in Hr.
  destruct (syncNode P cfg n w) as [r w']. simpl in *. by subst r.
Qed.

Lemma loop_result l w : result (loop l) w = OK tt.
Proof.
  revert w. induction l as [|n l IH]; intros w; [done|].
  unfold result. rewrite loop_cons. apply IH.
Qed.

Lemma loop_files l w : files (exec (loop l) w) = cycle_files P cfg l (files w).
Proof.
  revert w. induction l as [|n l IH]; intros w; [done|].
  unfold exec. rewrite loop_cons. fold (exec (loop l) (exec (syncNode P cfg n) w)).
  rewrite IH, syncNode_files. done.
Qed.

Lemma loop_requests l w :
  requests (exec (loop l) w) = requests w ++ map url l.
Proof.
  revert w. induction l as [|n l IH]; intros w; [by simpl; rewrite app_nil_r|].
  unfold exec. rewrite loop_cons. fold (exec (loop l) (exec (syncNode P cfg n) w)).
  rewrite IH, syncNode_requests. by rewrite <- app_assoc.
Qed.

Lemma local_loop l : local (loop l).
Proof. apply local_for_each, local_syncNode. Qed.

Lemma loop_printed n l w :
  printed (loop (n :: l)) w
  = printed (syncNode P cfg n) w ++ printed (loop l) (exec (syncNode P cfg n) w).
Proof.
  pose proof (console_local (loop (n :: l)) w (local_loop _)) as H1.
  unfold exec in H1 at 1. rewrite loop_cons in H1.
  fold (exec (loop l) (exec (syncNode P cfg n) w)) in H1.
  rewrite (console_local (loop l)) in H1 by apply local_loop.
  rewrite (console_local (syncNode P cfg n)) in H1 by apply local_syncNode.
  rewrite <- app_assoc in H1. by apply app_inv_head in H1.
Qed.

Lemma loop_outcomes l w :
  outcomes (printed (loop l) w) = cycle_outcomes P cfg l (files w).
Proof.
  revert w. induction l as [|n l IH]; intros w.
  - unfold printed, exec. simpl. by rewrite drop_all.
  - rewrite loop_printed, outcomes_app, syncNode_outcomes, IH, syncNode_files.
    done.
Qed.

(** *** The whole of [synchronizeData] *)

Lemma synchronizeData_run w :
  synchronizeData P cfg w
  = (OK tt,
     exec (console_log "Data synchronization complete.")
       (exec (loop (nodes cfg))
          (exec (console_log "Starting data synchronization...") w))).
Proof.
  unfold synchronizeData, bind, exec. cbn [console_log fst snd].
  set (w1 := {| files := files w; console := _; requests := _ |}).
  pose proof (loop_result (nodes cfg) w1) as Hr. unfold result in Hr.
  destruct (loop (nodes cfg) w1) as [r w2]. simpl in *.
  by subst r.
Qed.

Lemma synchronizeData_files w :
  files (exec (synchronizeData P cfg) w) = cycle_files P cfg (nodes cfg) (files w).
Proof.
  unfold exec at 1. rewrite synchronizeData_run. simpl.
  by rewrite loop_files.
Qed.

Lemma synchronizeData_requests w :
  requests (exec (synchronizeData P cfg) w) = requests w ++ map url (nodes cfg).
Proof.
  unfold exec at 1. rewrite synchronizeData_run. simpl.
  by rewrite loop_requests.
Qed.

Lemma synchronizeData_printed w :
  printed (synchronizeData P cfg) w
  = [Out "Starting data synchronization..."]
    ++ printed (loop (nodes cfg)) w
    ++ [Out "Data synchronization complete."].
Proof.
  unfold printed at 1. unfold exec at 1. rewrite synchronizeData_run. simpl.
  rewrite (console_local (loop (nodes cfg))) by apply local_loop. simpl.
  rewrite (printed_local (loop (nodes cfg))) by apply local_loop. simpl.
  rewrite (printed_local (loop (nodes cfg)) w) by apply local_loop.
  rewrite <- !app_assoc. by rewrite drop_app_length.
Qed.

Lemma synchronizeData_outcomes w :
  outcomes (printed (synchronizeData P cfg) w)
  = cycle_outcomes P cfg (nodes cfg) (files w).
Proof.
  rewrite synchronizeData_printed, !outcomes_app, loop_outcomes.
  simpl. by rewrite app_nil_r.
Qed.

End Cycle.

(** ** One iteration, case by case *)

Section Iteration.

Context (P : Platform) (cfg : Config).

Local Abbreviation path := (localFilePath P cfg).

(** The request fails: two error lines, nothing written. *)
Lemma syncNode_fetch_fails n w e :
  axios_get P (url n) = Threw e ->
  syncNode P cfg n w
  = (OK tt,
     {| files := files w;
        console := console w
          ++ [ErrWith ("Error fetching data from " +:+ name n +:+ ":") e;
              ErrWith ("Error synchronizing data for " +:+ name n +:+ ":") e];
        requests := requests w ++ [url n] |}).
Proof.
  intros Hf. run. steps. done.
Qed.

(** No local file: the fetched document is written, whatever it is. *)
Lemma syncNode_no_local n w remoteData :
  axios_get P (url n) = OK remoteData ->
  files w !! path n = None ->
  fs_write_error P (path n) = None ->
  syncNode P cfg n w
  = (OK tt,
     {| files := <[path n := JSON_stringify remoteData]> (files w);
        console := console w
          ++ [Out ("Fetched data from " +:+ name n);
              Out ("Data saved to: " +:+ path n);
              Out ("Data synchronized for " +:+ name n)];
        requests := requests w ++ [url n] |}).
Proof.
  unfold localFilePath. intros Hf Hl Hw. run. steps. done.
Qed.

(** A local document that is falsy is overwritten like a missing one. *)
Lemma syncNode_falsy_local n w remoteData text localData :
  axios_get P (url n) = OK remoteData ->
  files w !! path n = Some text ->
  JSON_parse P text = Some localData ->
  Json.truthy localData = false ->
  fs_write_error P (path n) = None ->
  syncNode P cfg n w
  = (OK tt,
     {| files := <[path n := JSON_stringify remoteData]> (files w);
        console := console w
          ++ [Out ("Fetched data from " +:+ name n);
              Out ("Data saved to: " +:+ path n);
              Out ("Data synchronized for " +:+ name n)];
        requests := requests w ++ [url n] |}).
Proof.
  unfold localFilePath. intros Hf Hl Hp Ht Hw. run. steps. done.
Qed.

(** A local document, and a resolution that returns: the winner is written. *)
Lemma syncNode_resolved n w remoteData text localData resolvedData :
  axios_get P (url n) = OK remoteData ->
  files w !! path n = Some text ->
  JSON_parse P text = Some localData ->
  Json.truthy localData = true ->
  resolveConflict P cfg localData remoteData = OK resolvedData ->
  fs_write_error P (path n) = None ->
  syncNode P cfg n w
  = (OK tt,
     {| files := <[path n := JSON_stringify resolvedData]> (files w);
        console := console w
          ++ [Out ("Fetched data from " +:+ name n);
              Out ("Data saved to: " +:+ path n);
              Out ("Data synchronized for " +:+ name n)];
        requests := requests w ++ [url n] |}).
Proof.
  unfold localFilePath. intros Hf Hl Hp Ht Hr Hw. run. steps. done.
Qed.

(** A local document, and a resolution that throws: the [catch] prints
    the error and the file stays as it was. *)
Lemma syncNode_resolution_throws n w remoteData text localData e :
  axios_get P (url n) = OK remoteData ->
  files w !! path n = Some text ->
  JSON_parse P text = Some localData ->
  Json.truthy localData = true ->
  resolveConflict P cfg localData remoteData = Threw e ->
  syncNode P cfg n w
  = (OK tt,
     {| files := files w;
        console := console w
          ++ [Out ("Fetched data from " +:+ name n);
              ErrWith ("Error synchronizing data for " +:+ name n +:+ ":") e];
        requests := requests w ++ [url n] |}).
Proof.
  unfold localFilePath. intros Hf Hl Hp Ht Hr. run. steps. done.
Qed.

(** The local file does not parse: same, with the SyntaxError. *)
Lemma syncNode_local_malformed n w remoteData text :
  axios_get P (url n) = OK remoteData ->
  files w !! path n = Some text ->
  JSON_parse P text = None ->
  syncNode P cfg n w
  = (OK tt,
     {| files := files w;
        console := console w
          ++ [Out ("Fetched data from " +:+ name n);
              ErrWith ("Error synchronizing data for " +:+ name n +:+ ":")
                SyntaxError];
        requests := requests w ++ [url n] |}).
Proof.
  unfold localFilePath. intros Hf Hl Hp. run. steps. done.
Qed.

(** *** resolveConflict *)

Lemma timestamp_of_record v : v <> JNull -> timestamp_of v = OK (Json.get v "timestamp").
Proof. by destruct v. Qed.

Lemma resolveConflict_latest localData remoteData :
  conflictResolution cfg = "latest-timestamp" ->
  localData <> JNull -> remoteData <> JNull ->
  resolveConflict P cfg localData remoteData
  = OK (if date_gt (Date P (Json.get localData "timestamp"))
                   (Date P (Json.get remoteData "timestamp"))
        then localData else remoteData).
Proof.
  intros Hc Hl Hr. unfold resolveConflict.
  rewrite !timestamp_of_record, Hc by done. done.
Qed.

Lemma resolveConflict_unsupported localData remoteData :
  conflictResolution cfg <> "latest-timestamp" ->
  localData <> JNull -> remoteData <> JNull ->
  resolveConflict P cfg localData remoteData
  = Threw (Error "Unsupported conflict resolution strategy").
Proof.
  intros Hc Hl Hr. unfold resolveConflict.
  rewrite !timestamp_of_record by done.
  apply String.eqb_neq in Hc. by rewrite Hc.
Qed.

Lemma truthy_not_null v : Json.truthy v = true -> v <> JNull.
Proof. by destruct v. Qed.

Lemma date_gt_spec a b :
  date_gt a b = true <-> exists x y, a = Some x /\ b = Some y /\ y < x.
Proof.
  destruct a as [x|], b as [y|]; simpl; split;
    try (intros (? & ? & ? & ? & ?); simplify_eq); try done.
  - intros H%Z.ltb_lt. eauto.
  - by apply Z.ltb_lt.
Qed.

End Iteration.

(** ** Failure isolation *)

Section Isolation.

Context (P : Platform) (cfg : Config).

Local Abbreviation path := (localFilePath P cfg).

Lemma cycle_files_with_nodes l l' fs :
  cycle_files P (with_nodes cfg l') l fs = cycle_files P cfg l fs.
Proof. reflexivity. Qed.

Lemma cycle_outcomes_with_nodes l l' fs :
  cycle_outcomes P (with_nodes cfg l') l fs = cycle_outcomes P cfg l fs.
Proof. reflexivity. Qed.

Lemma cycle_outcomes_length l fs : length (cycle_outcomes P cfg l fs) = length l.
Proof. revert fs. induction l; intros; simpl; auto. Qed.

Lemma cycle_outcomes_names l fs :
  map peerName (cycle_outcomes P cfg l fs) = map name l.
Proof. revert fs. induction l as [|n l IH]; intros fs; simpl; [done|]. by rewrite IH. Qed.

Lemma body_throws_attempt n w e :
  result (syncNode_body P cfg n) w = Threw e ->
  attempt P cfg n (files w !! path n) = Threw e.
Proof.
  rewrite syncNode_body_result. destruct (attempt _ _ _ _); congruence.
Qed.


Lemma fetch_failure_throws n w e :
  axios_get P (url n) = Threw e -> result (syncNode_body P cfg n) w = Threw e.
Proof.
  intros Hf. rewrite syncNode_body_result. unfold attempt, resolved_text.
  by rewrite Hf.
Qed.

End Isolation.


(** The cycle over A, B and C in full: B's request fails, A and C are
    fetched and written, and the three outcomes come in the configured
    order. *)
Example cycle_over_A_B_C :
  let w := exec (synchronizeData Example.platform Example.config) emptyWorld in
  requests w = ["http://a.example/sync"; "http://b.example/sync"; "http://c.example/sync"]
  /\ files w !! "data/NodeA_data.json" = Some (JSON_stringify Example.recordX)
  /\ files w !! "data/NodeB_data.json" = None
  /\ files w !! "data/NodeC_data.json" = Some (JSON_stringify Example.recordZ)
  /\ outcomes (console w)
     = [ {| peerName := "NodeA"; succeeded := true; errorDetail := None |};
         {| peerName := "NodeB"; succeeded := false;
            errorDetail := Some (AxiosError "connect ECONNREFUSED") |};
         {| peerName := "NodeC"; succeeded := true; errorDetail := None |} ].
Proof. vm_compute. repeat split. Qed.

(** ** What a cycle reports *)

(** The other ways to fail.  The local file of A does not parse, the
    resolution for B reads a property of [null], the write for C is
    refused: each error is caught and reported, the files of A and B stay
    as they were, and D, the last node, is fetched and written. *)
Example every_kind_of_failure_is_caught :
  let w := exec (synchronizeData Example.troubled Example.fourNodes)
             Example.troubledStore in
  result (synchronizeData Example.troubled Example.fourNodes)
    Example.troubledStore = OK tt
  /\ requests w = map url [Example.nodeA; Example.nodeB; Example.nodeC; Example.nodeD]
  /\ outcomes (console w)
     = [ {| peerName := "NodeA"; succeeded := false; errorDetail := Some SyntaxError |};
         {| peerName := "NodeB"; succeeded := false; errorDetail := Some TypeError |};
         {| peerName := "NodeC"; succeeded := false;
            errorDetail := Some (SystemError "EACCES") |};
         {| peerName := "NodeD"; succeeded := true; errorDetail := None |} ]
  /\ files w !! "data/NodeA_data.json" = Some "{not json"
  /\ files w !! "data/NodeB_data.json" = Some (JSON_stringify Example.recordY)
  /\ files w !! "data/NodeC_data.json" = None
  /\ files w !! "data/NodeD_data.json" = Some (JSON_stringify Example.recordX).
Proof. vm_compute. repeat split. Qed.

Section Report.

Context (P : Platform) (cfg : Config).


End Report.


(** ** The conflict resolution policy *)

Section Policy.

Context (P : Platform) (cfg : Config).

Local Abbreviation path := (localFilePath P cfg).




End Policy.

(** ** What a cycle leaves in the store *)

Section Store.

Context (P : Platform) (cfg : Config).

Local Abbreviation path := (localFilePath P cfg).

Lemma synchronizeData_file_of before n after w :
  nodes cfg = before ++ n :: after ->
  Forall (fun m => path m <> path n) (before ++ after) ->
  files (exec (synchronizeData P cfg) w) !! path n
  = match attempt P cfg n (files w !! path n) with
    | OK text => Some text
    | Threw _ => files w !! path n
    end.
Proof.
  intros Hn Hu. rewrite synchronizeData_files, Hn, cycle_files_own by done.
  apply step_files_own.
Qed.

Lemma synchronizeData_outcome_of before n after w :
  nodes cfg = before ++ n :: after ->
  Forall (fun m => path m <> path n) (before ++ after) ->
  outcomes (printed (synchronizeData P cfg) w) !! length before
  = Some (outcome_of n (attempt P cfg n (files w !! path n))).
Proof.
  intros Hn [Hb _]%Forall_app.
  rewrite synchronizeData_outcomes, Hn, cycle_outcomes_app.
  rewrite lookup_app_r by (by rewrite cycle_outcomes_length).
  rewrite cycle_outcomes_length, Nat.sub_diag. simpl.
  by rewrite cycle_files_frame.
Qed.

Lemma attempt_no_local n remoteData :
  axios_get P (url n) = OK remoteData ->
  fs_write_error P (path n) = None ->
  attempt P cfg n None = OK (JSON_stringify remoteData).
Proof. intros Hf Hw. unfold attempt, resolved_text. by rewrite Hf, Hw. Qed.

Lemma attempt_resolved n remoteData text localData resolvedData :
  axios_get P (url n) = OK remoteData ->
  JSON_parse P text = Some localData ->
  Json.truthy localData = true ->
  resolveConflict P cfg localData remoteData = OK resolvedData ->
  fs_write_error P (path n) = None ->
  attempt P cfg n (Some text) = OK (JSON_stringify resolvedData).
Proof.
  intros Hf Hp Ht Hr Hw. unfold attempt, resolved_text.
  by rewrite Hf, Hp, Ht, Hr, Hw.
Qed.

Lemma attempt_falsy_local n remoteData text localData :
  axios_get P (url n) = OK remoteData ->
  JSON_parse P text = Some localData ->
  Json.truthy localData = false ->
  fs_write_error P (path n) = None ->
  attempt P cfg n (Some text) = OK (JSON_stringify remoteData).
Proof.
  intros Hf Hp Ht Hw. unfold attempt, resolved_text.
  by rewrite Hf, Hp, Ht, Hw.
Qed.

(** C4. A node that no other configured node shares its file with, and
    that has no local file when the cycle starts: whatever was fetched
    for it is what the cycle leaves in its file, by way of
    [JSON.stringify], whatever the policy and whatever the document. *)
Theorem remote_wins_without_local_record before n after w remoteData :
  nodes cfg = before ++ n :: after ->
  Forall (fun m => path m <> path n) (before ++ after) ->
  axios_get P (url n) = OK remoteData ->
  files w !! path n = None ->
  fs_write_error P (path n) = None ->
  files (exec (synchronizeData P cfg) w) !! path n
  = Some (JSON_stringify remoteData).
Proof.
  intros Hn Hu Hf Hl Hw.
  rewrite (synchronizeData_file_of before n after) by done.
  by rewrite Hl, (attempt_no_local n remoteData).
Qed.

(** C8, as the code has it.  When the local record is the strictly later
    one, the cycle writes it back: the file then holds the local record
    as [JSON.stringify] prints it with an indentation of two.  It is the
    text from before the cycle exactly when that text was already in this
    form. *)
Theorem later_local_record_is_written_back
    before n after w text localData remoteData :
  nodes cfg = before ++ n :: after ->
  Forall (fun m => path m <> path n) (before ++ after) ->
  conflictResolution cfg = "latest-timestamp" ->
  axios_get P (url n) = OK remoteData ->
  remoteData <> JNull ->
  files w !! path n = Some text ->
  JSON_parse P text = Some localData ->
  Json.truthy localData = true ->
  date_gt (Date P (Json.get localData "timestamp"))
          (Date P (Json.get remoteData "timestamp")) = true ->
  fs_write_error P (path n) = None ->
  files (exec (synchronizeData P cfg) w) !! path n
  = Some (JSON_stringify localData)
  /\ (files (exec (synchronizeData P cfg) w) !! path n = files w !! path n
      <-> JSON_stringify localData = text).
Proof.
  intros Hn Hu Hc Hf Hr Hl Hp Ht Hgt Hw.
  assert (files (exec (synchronizeData P cfg) w) !! path n
          = Some (JSON_stringify localData)) as Hres.
  { rewrite (synchronizeData_file_of before n after) by done.
    rewrite Hl, (attempt_resolved n remoteData text localData localData); try done.
    rewrite resolveConflict_latest; [by rewrite Hgt|done| |done].
    by apply truthy_not_null. }
  split; [done|]. rewrite Hres, Hl. split; congruence.
Qed.




End Store.

(** ** The theorems at work *)





Lemma remote_wins_without_local_record_witness :
  files (exec (synchronizeData Example.platform Example.config) emptyWorld)
  !! "data/NodeC_data.json"
  = Some (JSON_stringify Example.recordZ).
Proof.
  apply (remote_wins_without_local_record Example.platform Example.config
           [Example.nodeA; Example.nodeB] Example.nodeC [] emptyWorld Example.recordZ).
  - reflexivity.
  - repeat constructor; vm_compute; discriminate.
  - reflexivity.
  - reflexivity.
  - reflexivity.
Defined.

Lemma later_local_record_is_written_back_witness :
  files (exec (synchronizeData Example.platform Example.onlyA) Example.newerLocal)
  !! "data/NodeA_data.json"
  = Some (JSON_stringify Example.recordY)
  /\ (files (exec (synchronizeData Example.platform Example.onlyA) Example.newerLocal)
      !! "data/NodeA_data.json"
      = files Example.newerLocal !! "data/NodeA_data.json"
      <-> JSON_stringify Example.recordY
          = Example.json_text "{'timestamp': 200, 'value': 'y'}").
Proof.
  apply (later_local_record_is_written_back Example.platform Example.onlyA
           [] Example.nodeA [] Example.newerLocal
           (Example.json_text "{'timestamp': 200, 'value': 'y'}")
           Example.recordY Example.recordX).
  - reflexivity.
  - constructor.
  - reflexivity.
  - reflexivity.
  - discriminate.
  - reflexivity.
  - vm_compute. reflexivity.
  - reflexivity.
  - reflexivity.
  - reflexivity.
Defined.

(** C8, as the spec has it, fails on the scenario of the spec itself.  The
    store holds the record with timestamp 200 on one line; the node answers
    with timestamp 100.  The local record wins, and the file is rewritten
    over several indented lines: the same record, other bytes. *)
Lemma later_local_record_is_not_kept_byte_for_byte :
  let before := Example.newerLocal in
  let after := exec (synchronizeData Example.platform Example.onlyA) before in
  files before !! "data/NodeA_data.json"
  = Some (Example.json_text "{'timestamp': 200, 'value': 'y'}")
  /\ axios_get Example.platform (url Example.nodeA)
     = OK (JObj [("timestamp", JNum 100); ("value", JStr "x")])
  /\ files after !! "data/NodeA_data.json"
     = Some (Example.json_text
               ("{" +:+ Json.newline +:+ "  'timestamp': 200," +:+ Json.newline
                +:+ "  'value': 'y'" +:+ Json.newline +:+ "}"))
  /\ files after !! "data/NodeA_data.json" <> files before !! "data/NodeA_data.json".
Proof. vm_compute. repeat split. discriminate. Qed.

(** A second cycle over what the first one wrote finds the file in the form
    it writes, and leaves its bytes as they are. *)
Example second_cycle_keeps_the_bytes :
  let once := exec (synchronizeData Example.platform Example.onlyA) Example.newerLocal in
  let twice := exec (synchronizeData Example.platform Example.onlyA) once in
  files twice !! "data/NodeA_data.json" = files once !! "data/NodeA_data.json".
Proof. vm_compute. reflexivity. Qed.






(** ** More of the Data Syncing module *)

Section Reach.

Context (P : Platform) (cfg : Config).

Local Abbreviation path := (localFilePath P cfg).

Lemma step_files_keeps n fs p : is_Some (fs !! p) -> is_Some (step_files P cfg n fs !! p).
Proof.
  intros Hp. unfold step_files. destruct (attempt _ _ _ _); [|done].
  destruct (decide (path n = p)) as [->|Hne].
  - rewrite lookup_insert_eq. eauto.
  - by rewrite lookup_insert_ne.
Qed.

Lemma cycle_files_keeps l fs p : is_Some (fs !! p) -> is_Some (cycle_files P cfg l fs !! p).
Proof.
  revert fs. induction l as [|n l IH]; intros fs Hp; [done|].
  rewrite cycle_files_cons. by apply IH, step_files_keeps.
Qed.

(** X1. A cycle writes to the files of the configured nodes and to no
    other: a path that is the file of no node holds after the cycle what it
    held before.  And a cycle removes nothing: a file that was there is
    still there. *)
Theorem synchronizeData_touches_only_node_files w :
  (forall p, Forall (fun n => path n <> p) (nodes cfg) ->
     files (exec (synchronizeData P cfg) w) !! p = files w !! p)
  /\ (forall p, is_Some (files w !! p) ->
        is_Some (files (exec (synchronizeData P cfg) w) !! p)).
Proof.
  split; intros p Hp; rewrite synchronizeData_files.
  - by apply cycle_files_frame.
  - by apply cycle_files_keeps.
Qed.

(** ** A second cycle *)

Lemma resolveConflict_picks localData remoteData resolvedData :
  resolveConflict P cfg localData remoteData = OK resolvedData ->
  resolvedData = localData \/ resolvedData = remoteData.
Proof.
  unfold resolveConflict.
  destruct (timestamp_of localData); [|done].
  destruct (timestamp_of remoteData); [|done].
  destruct (String.eqb _ _); [|done].
  destruct (date_gt _ _); intros [= <-]; auto.
Qed.

Lemma resolveConflict_same v resolvedData :
  resolveConflict P cfg v v = OK resolvedData -> resolvedData = v.
Proof. intros [->| ->]%resolveConflict_picks; done. Qed.

(** What an iteration wrote, the next iteration for the same node writes
    again, if it writes at all. *)
Lemma attempt_again n old text :
  (forall r, axios_get P (url n) = OK r -> JSON_parse P (JSON_stringify r) = Some r) ->
  (forall t l, old = Some t -> JSON_parse P t = Some l ->
     JSON_parse P (JSON_stringify l) = Some l) ->
  attempt P cfg n old = OK text ->
  match attempt P cfg n (Some text) with
  | OK text' => text' = text
  | Threw _ => True
  end.
Proof.
  intros Hremote Hlocal. unfold attempt, resolved_text.
  destruct (axios_get P (url n)) as [r|e] eqn:Hf; [|done].
  specialize (Hremote r eq_refl).
  destruct (fs_write_error P _); [by destruct old as [t|]; repeat case_match|].
  assert (forall v,
    JSON_parse P (JSON_stringify v) = Some v ->
    (v = r \/ (Json.truthy v = true /\ resolveConflict P cfg v r = OK v)) ->
    match
      match
        match JSON_parse P (JSON_stringify v) with
        | Some localData =>
            if Json.truthy localData
            then match resolveConflict P cfg localData r with
                 | OK resolvedData => OK (JSON_stringify resolvedData)
                 | Threw e => Threw e
                 end
            else OK (JSON_stringify r)
        | None => Threw SyntaxError
        end
      with
      | OK text0 => OK text0
      | Threw e => Threw e
      end
    with
    | OK text' => text' = JSON_stringify v
    | Threw _ => True
    end) as Hagain.
  { intros v -> [->|[Ht Hres]].
    - destruct (Json.truthy r); [|done].
      destruct (resolveConflict P cfg r r) eqn:Hres; [|done].
      by apply resolveConflict_same in Hres as ->.
    - by rewrite Ht, Hres. }
  destruct old as [t|].
  - destruct (JSON_parse P t) as [l|] eqn:Hp; [|done].
    specialize (Hlocal t l eq_refl Hp).
    destruct (Json.truthy l) eqn:Ht.
    + destruct (resolveConflict P cfg l r) as [v|] eqn:Hres; [|done].
      intros [= <-]. apply Hagain.
      * by destruct (resolveConflict_picks _ _ _ Hres) as [->| ->].
      * destruct (resolveConflict_picks _ _ _ Hres) as [->| ->]; auto.
    + intros [= <-]. apply Hagain; auto.
  - intros [= <-]. apply Hagain; auto.
Qed.

Lemma step_files_again n fs :
  (forall r, axios_get P (url n) = OK r -> JSON_parse P (JSON_stringify r) = Some r) ->
  (forall t l, fs !! path n = Some t -> JSON_parse P t = Some l ->
     JSON_parse P (JSON_stringify l) = Some l) ->
  match attempt P cfg n (step_files P cfg n fs !! path n) with
  | OK text => Some text
  | Threw _ => step_files P cfg n fs !! path n
  end = step_files P cfg n fs !! path n.
Proof.
  intros Hremote Hlocal. rewrite step_files_own.
  destruct (attempt P cfg n (fs !! path n)) as [text|e] eqn:Ha.
  - pose proof (attempt_again n (fs !! path n) text Hremote Hlocal Ha) as Hnext.
    destruct (attempt P cfg n (Some text)); [by subst|done].
  - by rewrite Ha.
Qed.

Lemma path_in_nodes l p :
  p ∈ map path l -> NoDup (map path l) ->
  exists before n after,
    l = before ++ n :: after /\ path n = p
    /\ Forall (fun m => path m <> path n) (before ++ after).
Proof.
  intros (n & -> & Hn)%list_elem_of_fmap Hnd.
  apply list_elem_of_split in Hn as (before & after & ->).
  exists before, n, after. repeat split.
  rewrite map_app in Hnd. simpl in Hnd.
  apply NoDup_app in Hnd as (Hb & Hdisj & Ha).
  apply NoDup_cons in Ha as [Hna Ha].
  apply Forall_app. split; apply Forall_forall; intros m Hm Heq.
  - apply (Hdisj (path m)); [by apply list_elem_of_fmap_2|].
    rewrite Heq. left.
  - apply Hna. rewrite <- Heq. by apply list_elem_of_fmap_2.
Qed.

(** X2. Run against nodes that answer as before, a second cycle changes no
    file: whatever the first cycle wrote, the second one writes again or
    leaves alone.  It takes the nodes to have files of their own, and
    [JSON.parse] to read back what [JSON.stringify] printed for the
    documents at hand. *)
Theorem second_cycle_changes_no_file w :
  NoDup (map path (nodes cfg)) ->
  (forall n r, n ∈ nodes cfg -> axios_get P (url n) = OK r ->
     JSON_parse P (JSON_stringify r) = Some r) ->
  (forall n t l, n ∈ nodes cfg -> files w !! path n = Some t ->
     JSON_parse P t = Some l -> JSON_parse P (JSON_stringify l) = Some l) ->
  files (exec (synchronizeData P cfg) (exec (synchronizeData P cfg) w))
  = files (exec (synchronizeData P cfg) w).
Proof.
  intros Hnd Hremote Hlocal. rewrite !synchronizeData_files.
  apply map_eq. intros p.
  destruct (decide (p ∈ map path (nodes cfg))) as [Hin|Hout].
  - destruct (path_in_nodes _ _ Hin Hnd) as (before & n & after & Hl & <- & Hu).
    assert (n ∈ nodes cfg) as Hn.
    { rewrite Hl. apply elem_of_app. right. left. }
    rewrite Hl, !cycle_files_own by done.
    rewrite (step_files_own P cfg n (cycle_files _ _ _ _)).
    rewrite cycle_files_own by done.
    apply step_files_again; eauto.
  - assert (Forall (fun n => path n <> p) (nodes cfg)) as Hu.
    { apply Forall_forall. intros n Hn Heq. apply Hout.
      rewrite <- Heq. by apply list_elem_of_fmap_2. }
    by rewrite !cycle_files_frame.
Qed.

End Reach.

Lemma second_cycle_changes_no_file_witness :
  files (exec (synchronizeData Example.platform Example.onlyA)
           (exec (synchronizeData Example.platform Example.onlyA) Example.newerLocal))
  = files (exec (synchronizeData Example.platform Example.onlyA) Example.newerLocal).
Proof.
  apply (second_cycle_changes_no_file Example.platform Example.onlyA).
  - apply (bool_decide_unpack _). vm_compute. exact I.
  - intros n r ->%list_elem_of_singleton Hr.
    vm_compute in Hr. injection Hr as <-. vm_compute. reflexivity.
  - intros n t l ->%list_elem_of_singleton Ht.
    vm_compute in Ht. injection Ht as <-. intros Hl.
    vm_compute in Hl. injection Hl as <-. vm_compute. reflexivity.
Defined.

Section Missing.

Context (P : Platform) (cfg : Config).


End Missing.


(** ** File names *)

Lemma no_space_app s t : no_space (s +:+ t) = no_space s && no_space t.
Proof. induction s as [|c s IH]; simpl; [done|]. by rewrite IH, andb_assoc. Qed.

Lemma replace_spaces_no_space b s : no_space (replace_spaces b s) = true.
Proof.
  revert b. induction s as [|c s IH]; intros b; simpl; [done|].
  destruct (is_space c) eqn:Hc.
  - destruct b; [apply IH|]. simpl. apply IH.
  - simpl. rewrite Hc. apply IH.
Qed.

Lemma replace_spaces_id b s : no_space s = true -> replace_spaces b s = s.
Proof.
  revert b. induction s as [|c s IH]; intros b; simpl; [done|].
  intros [Hc Hs]%andb_prop. apply negb_true_iff in Hc. rewrite Hc.
  by rewrite IH.
Qed.

(** A run of white space, wherever it stands, comes out as it would if it
    were a single blank. *)
Lemma replace_spaces_run b ws t :
  ws <> "" -> all_space ws = true ->
  replace_spaces b (ws +:+ t) = replace_spaces b (" " +:+ t).
Proof.
  intros Hne Hws. destruct ws as [|c ws]; [done|]. clear Hne.
  simpl in Hws. apply andb_prop in Hws as [Hc Hws]. simpl. rewrite Hc.
  change (is_space " ") with true.
  assert (forall u, all_space u = true -> replace_spaces true (u +:+ t) = replace_spaces true t)
    as Hskip.
  { induction u as [|d u IH]; [done|]. simpl.
    intros [Hd Hu]%andb_prop. rewrite Hd. by apply IH. }
  by rewrite Hskip.
Qed.

Lemma replace_spaces_prefix b a t t' :
  (forall b', replace_spaces b' t = replace_spaces b' t') ->
  replace_spaces b (a +:+ t) = replace_spaces b (a +:+ t').
Proof.
  intros Ht. revert b. induction a as [|c a IH]; intros b; simpl; [apply Ht|].
  destruct (is_space c); [destruct b|]; by rewrite IH.
Qed.


Lemma synchronizeData_touches_only_node_files_witness :
  files (exec (synchronizeData Example.platform Example.config) Example.newerLocal)
  !! "./transaction_logs.json" = None
  /\ is_Some (files (exec (synchronizeData Example.platform Example.config)
                       Example.newerLocal) !! "data/NodeA_data.json").
Proof.
  destruct (synchronizeData_touches_only_node_files Example.platform Example.config
              Example.newerLocal) as (Hframe & Hkeeps).
  split.
  - rewrite Hframe; [reflexivity|].
    repeat constructor; vm_compute; discriminate.
  - apply Hkeeps. vm_compute. eauto.
Defined.



(** ** The Multi-Chain module *)

Ltac mc_run :=
  unfold MultiChain.sendTransaction, MultiChain.attempt_once, MultiChain.attempt_body,
    MultiChain.attempt_catch, MultiChain.logTransaction, MultiChain.logAnalytics,
    MultiChain.logTo, MultiChain.provider_send in *;
  run.

Section MultiChainLog.

Import MultiChain.

Context (P : Platform) (cfg : Config).

Lemma logTo_absent path entry w :
  files w !! path = None ->
  fs_write_error P path = None ->
  logTo P path entry w
  = (OK tt, {| files := <[path := JSON_stringify (JArr [entry])]> (files w);
               console := console w;
               requests := requests w |}).
Proof. intros Hl Hw. mc_run. by rewrite Hl, Hw. Qed.

Lemma logTo_array path entry w text elems :
  files w !! path = Some text ->
  JSON_parse P text = Some (JArr elems) ->
  fs_write_error P path = None ->
  logTo P path entry w
  = (OK tt, {| files := <[path := JSON_stringify (JArr (elems ++ [entry]))]> (files w);
               console := console w;
               requests := requests w |}).
Proof.
  intros Hl Hp Hw. mc_run. rewrite Hl. cbn [fst snd]. rewrite Hl, Hp. cbn [fst snd].
  by rewrite Hw.
Qed.

Lemma logTo_refused path entry w code :
  files w !! path = None ->
  fs_write_error P path = Some code ->
  logTo P path entry w = (Threw (SystemError code), w).
Proof. intros Hl Hw. mc_run. by rewrite Hl, Hw. Qed.

Lemma logTo_frame path entry w p :
  p <> path -> files (exec (logTo P path entry) w) !! p = files w !! p.
Proof.
  intros Hp. mc_run. cases; rewrite ?lookup_insert_ne; done.
Qed.

Lemma logTo_quiet path entry w :
  console (exec (logTo P path entry) w) = console w
  /\ requests (exec (logTo P path entry) w) = requests w.
Proof. mc_run. cases; done. Qed.

(** X5. Logging a transaction appends it: a log that is not there yet
    becomes the array of the one entry, a log that holds an array becomes
    that array with the entry at its end.  A log that holds anything else
    is left as it is, and the call throws. *)
Theorem logTransaction_appends entry w :
  fs_write_error P (transactionLogPath cfg) = None ->
  (files w !! transactionLogPath cfg = None ->
     logTransaction P cfg entry w
     = (OK tt, {| files := <[transactionLogPath cfg := JSON_stringify (JArr [entry])]>
                             (files w);
                  console := console w; requests := requests w |}))
  /\ (forall text elems,
        files w !! transactionLogPath cfg = Some text ->
        JSON_parse P text = Some (JArr elems) ->
        logTransaction P cfg entry w
        = (OK tt, {| files := <[transactionLogPath cfg
                                 := JSON_stringify (JArr (elems ++ [entry]))]> (files w);
                     console := console w; requests := requests w |}))
  /\ (forall text v,
        files w !! transactionLogPath cfg = Some text ->
        JSON_parse P text = Some v ->
        (forall elems, v <> JArr elems) ->
        logTransaction P cfg entry w = (Threw TypeError, w))
  /\ (forall text,
        files w !! transactionLogPath cfg = Some text ->
        JSON_parse P text = None ->
        logTransaction P cfg entry w = (Threw SyntaxError, w)).
Proof.
  intros Hw. repeat split.
  - intros Hl. by apply logTo_absent.
  - intros text elems Hl Hp. by apply (logTo_array _ _ _ text).
  - intros text v Hl Hp Hv. mc_run. rewrite Hl. cbn [fst snd]. rewrite Hl, Hp.
    cbn [fst snd]. destruct v; try done. by destruct (Hv elems).
  - intros text Hl Hp. mc_run. rewrite Hl. cbn [fst snd]. by rewrite Hl, Hp.
Qed.

End MultiChainLog.

Section MultiChainRetry.

Import MultiChain.

Context (P : Platform) (N : Providers) (cfg : Config).

Local Abbreviation logPath := (transactionLogPath cfg).

(** *** What a turn of the loop does, and what it never does *)

Lemma attempt_once_sends_once this transaction attempt w :
  (length (requests (exec (attempt_once P N cfg this transaction attempt) w))
   <= S (length (requests w)))%nat.
Proof.
  mc_run. cases; cbn [requests]; rewrite ?length_app; simpl; lia.
Qed.

Lemma attempt_once_frame this transaction attempt w p :
  p <> logPath ->
  files (exec (attempt_once P N cfg this transaction attempt) w) !! p = files w !! p.
Proof.
  intros Hp. mc_run. cases; rewrite ?lookup_insert_ne; done.
Qed.

Lemma attempts_send_at_most this transaction remaining attempt w :
  (length (requests (exec (attempts P N cfg this transaction remaining attempt) w))
   <= length (requests w) + remaining)%nat.
Proof.
  revert attempt w. induction remaining as [|r IH]; intros attempt w; simpl.
  - unfold exec, ret. simpl. lia.
  - unfold exec, bind.
    pose proof (attempt_once_sends_once this transaction attempt w) as H1.
    unfold exec in H1.
    destruct (attempt_once P N cfg this transaction attempt w) as [[[resp|]|e] w'];
      simpl in *; try lia.
    specialize (IH (attempt + 1) w'). unfold exec in IH. lia.
Qed.

Lemma attempts_frame this transaction remaining attempt w p :
  p <> logPath ->
  files (exec (attempts P N cfg this transaction remaining attempt) w) !! p
  = files w !! p.
Proof.
  intros Hp. revert attempt w. induction remaining as [|r IH]; intros attempt w; simpl.
  - done.
  - unfold exec, bind.
    pose proof (attempt_once_frame this transaction attempt w p Hp) as H1.
    unfold exec in H1.
    destruct (attempt_once P N cfg this transaction attempt w) as [[[resp|]|e] w'];
      simpl in *; try done.
    specialize (IH (attempt + 1) w'). unfold exec in IH. by rewrite IH.
Qed.

(** X6. However the providers answer, [sendTransaction] sends the
    transaction at most [maxRetries] times, and writes to no file but the
    transaction log.  With [maxRetries] at zero or below it sends nothing,
    logs nothing and returns [undefined]. *)
Theorem sendTransaction_is_bounded this transaction w :
  (length (requests (exec (sendTransaction P N cfg this transaction) w))
   <= length (requests w) + Z.to_nat (maxRetries cfg))%nat
  /\ (forall p, p <> logPath ->
        files (exec (sendTransaction P N cfg this transaction) w) !! p = files w !! p)
  /\ (maxRetries cfg <= 0 ->
        sendTransaction P N cfg this transaction w = (OK None, w)).
Proof.
  repeat split.
  - apply attempts_send_at_most.
  - intros p Hp. by apply attempts_frame.
  - intros Hm. unfold sendTransaction.
    replace (Z.to_nat (maxRetries cfg)) with 0%nat by lia. done.
Qed.


(** *** One turn, case by case *)

Lemma hash_of_response response :
  response <> JNull -> hash_of response = OK (Json.get response "hash").
Proof. by destruct response. Qed.

Ltac turn :=
  mc_run;
  repeat (match goal with
          | H : _ = _ |- _ => rewrite H
          | H : (_ =? _) = _ |- _ => rewrite H
          end;
          rewrite ?String.eqb_refl;
          cbn [fst snd files console requests MultiChain.push]);
  rewrite <- ?app_assoc.

Lemma eth_fails_early this transaction attempt w e :
  chain this = "Ethereum" ->
  eth_sendTransaction N (requests w) (signedTx transaction) = Threw e ->
  (attempt =? maxRetries cfg) = false ->
  attempt_once P N cfg this transaction attempt w
  = (OK None,
     {| files := files w;
        console := console w ++ [processing this attempt; failing N attempt e];
        requests := requests w ++ ["Ethereum"] |}).
Proof.
  intros Hc Hs Ha. unfold processing, failing. turn. done.
Qed.

Lemma eth_fails_last this transaction attempt w e :
  chain this = "Ethereum" ->
  eth_sendTransaction N (requests w) (signedTx transaction) = Threw e ->
  (attempt =? maxRetries cfg) = true ->
  files w !! logPath = None ->
  fs_write_error P logPath = None ->
  attempt_once P N cfg this transaction attempt w
  = (Threw e,
     {| files := <[logPath := JSON_stringify (JArr [failedEntry N this transaction e])]>
                   (files w);
        console := console w ++ [processing this attempt; failing N attempt e];
        requests := requests w ++ ["Ethereum"] |}).
Proof.
  intros Hc Hs Ha Hl Hw. unfold processing, failing, failedEntry. turn. done.
Qed.

Lemma eth_succeeds this transaction attempt w response :
  chain this = "Ethereum" ->
  eth_sendTransaction N (requests w) (signedTx transaction) = OK response ->
  response <> JNull ->
  files w !! logPath = None ->
  fs_write_error P logPath = None ->
  attempt_once P N cfg this transaction attempt w
  = (OK (Some response),
     {| files := <[logPath := JSON_stringify (JArr [successEntry response])]> (files w);
        console := console w ++ [processing this attempt];
        requests := requests w ++ ["Ethereum"] |}).
Proof.
  intros Hc Hs Hn%hash_of_response Hl Hw. unfold processing, successEntry. turn.
  done.
Qed.

Lemma eth_unlogged_early this transaction attempt w response code :
  chain this = "Ethereum" ->
  eth_sendTransaction N (requests w) (signedTx transaction) = OK response ->
  response <> JNull ->
  files w !! logPath = None ->
  fs_write_error P logPath = Some code ->
  (attempt =? maxRetries cfg) = false ->
  attempt_once P N cfg this transaction attempt w
  = (OK None,
     {| files := files w;
        console := console w
          ++ [processing this attempt; failing N attempt (SystemError code)];
        requests := requests w ++ ["Ethereum"] |}).
Proof.
  intros Hc Hs Hn%hash_of_response Hl Hw Ha. unfold processing, failing. turn.
  done.
Qed.

Lemma eth_unlogged_last this transaction attempt w response code :
  chain this = "Ethereum" ->
  eth_sendTransaction N (requests w) (signedTx transaction) = OK response ->
  response <> JNull ->
  files w !! logPath = None ->
  fs_write_error P logPath = Some code ->
  (attempt =? maxRetries cfg) = true ->
  attempt_once P N cfg this transaction attempt w
  = (Threw (SystemError code),
     {| files := files w;
        console := console w
          ++ [processing this attempt; failing N attempt (SystemError code)];
        requests := requests w ++ ["Ethereum"] |}).
Proof.
  intros Hc Hs Hn%hash_of_response Hl Hw Ha. unfold processing, failing. turn.
  done.
Qed.

Lemma unsupported_early this transaction attempt w :
  chain this <> "Ethereum" -> chain this <> "Solana" ->
  (attempt =? maxRetries cfg) = false ->
  attempt_once P N cfg this transaction attempt w
  = (OK None,
     {| files := files w;
        console := console w
          ++ [processing this attempt; failing N attempt (Error "Unsupported chain")];
        requests := requests w |}).
Proof.
  intros He%String.eqb_neq Hs%String.eqb_neq Ha. unfold processing, failing. turn. done.
Qed.

Lemma unsupported_last this transaction attempt w :
  chain this <> "Ethereum" -> chain this <> "Solana" ->
  (attempt =? maxRetries cfg) = true ->
  files w !! logPath = None ->
  fs_write_error P logPath = None ->
  attempt_once P N cfg this transaction attempt w
  = (Threw (Error "Unsupported chain"),
     {| files := <[logPath := JSON_stringify
                     (JArr [failedEntry N this transaction (Error "Unsupported chain")])]>
                   (files w);
        console := console w
          ++ [processing this attempt; failing N attempt (Error "Unsupported chain")];
        requests := requests w |}).
Proof.
  intros He%String.eqb_neq Hs%String.eqb_neq Ha Hl Hw.
  unfold processing, failing, failedEntry. turn. done.
Qed.


(** *** The loop *)

Lemma attempts_continue this transaction r a w w' :
  attempt_once P N cfg this transaction a w = (OK None, w') ->
  attempts P N cfg this transaction (S r) a w
  = attempts P N cfg this transaction r (a + 1) w'.
Proof. intros H. simpl. unfold bind. by rewrite H. Qed.

Lemma attempts_return this transaction r a w w' response :
  attempt_once P N cfg this transaction a w = (OK (Some response), w') ->
  attempts P N cfg this transaction (S r) a w = (OK (Some response), w').
Proof. intros H. simpl. unfold bind. by rewrite H. Qed.

Lemma attempts_throw this transaction r a w w' e :
  attempt_once P N cfg this transaction a w = (Threw e, w') ->
  attempts P N cfg this transaction (S r) a w = (Threw e, w').
Proof. intros H. simpl. unfold bind. by rewrite H. Qed.

Lemma requests_repeat (l : list string) x n :
  (l ++ [x]) ++ repeat x n = l ++ repeat x (S n).
Proof. by rewrite <- app_assoc. Qed.

Lemma every_send_fails_loop this transaction e r :
  chain this = "Ethereum" ->
  (forall h, eth_sendTransaction N h (signedTx transaction) = Threw e) ->
  fs_write_error P logPath = None ->
  forall a w,
    a + Z.of_nat r = maxRetries cfg ->
    files w !! logPath = None ->
    exists lines,
      attempts P N cfg this transaction (S r) a w
      = (Threw e,
         {| files := <[logPath := JSON_stringify (JArr [failedEntry N this transaction e])]>
                       (files w);
            console := console w ++ lines;
            requests := requests w ++ repeat "Ethereum" (S r) |}).
Proof.
  intros Hc Hs Hw. induction r as [|r IH]; intros a w Ha Hl.
  - eexists. erewrite attempts_throw; [reflexivity|].
    apply eth_fails_last; try done. apply Z.eqb_eq. lia.
  - erewrite attempts_continue;
      [|apply (eth_fails_early _ _ _ _ e); try done; apply Z.eqb_neq; lia].
    destruct (IH (a + 1) {| files := files w;
                            console := console w ++ [processing this a; failing N a e];
                            requests := requests w ++ ["Ethereum"] |})
      as [lines Hrun]; [lia|done|].
    rewrite Hrun. cbn [files console requests].
    eexists. rewrite <- app_assoc, requests_repeat. reflexivity.
Qed.

(** X7. When every send fails, [sendTransaction] on Ethereum sends the
    transaction exactly [maxRetries] times, then appends one [failed] entry
    to the log and throws the error of the send. *)
Theorem sendTransaction_gives_up_after_maxRetries this transaction e w :
  chain this = "Ethereum" ->
  (forall h, eth_sendTransaction N h (signedTx transaction) = Threw e) ->
  1 <= maxRetries cfg ->
  files w !! logPath = None ->
  fs_write_error P logPath = None ->
  result (sendTransaction P N cfg this transaction) w = Threw e
  /\ requests (exec (sendTransaction P N cfg this transaction) w)
     = requests w ++ repeat "Ethereum" (Z.to_nat (maxRetries cfg))
  /\ files (exec (sendTransaction P N cfg this transaction) w)
     = <[logPath := JSON_stringify (JArr [failedEntry N this transaction e])]> (files w).
Proof.
  intros Hc Hs Hm Hl Hw. unfold sendTransaction, result, exec.
  destruct (Z.to_nat (maxRetries cfg)) as [|r] eqn:Hr; [lia|].
  destruct (every_send_fails_loop this transaction e r Hc Hs Hw 1 w) as [lines ->];
    [lia|done|]. done.
Qed.

Lemma first_success_loop this transaction response r :
  chain this = "Ethereum" ->
  response <> JNull ->
  fs_write_error P logPath = None ->
  forall j (errors : nat -> exn) a w,
    (forall i, (i < j)%nat ->
       eth_sendTransaction N (requests w ++ repeat "Ethereum" i) (signedTx transaction)
       = Threw (errors i)) ->
    eth_sendTransaction N (requests w ++ repeat "Ethereum" j) (signedTx transaction)
    = OK response ->
    a + Z.of_nat j < maxRetries cfg + 1 ->
    files w !! logPath = None ->
    exists lines,
      attempts P N cfg this transaction (S (j + r)) a w
      = (OK (Some response),
         {| files := <[logPath := JSON_stringify (JArr [successEntry response])]> (files w);
            console := console w ++ lines;
            requests := requests w ++ repeat "Ethereum" (S j) |}).
Proof.
  intros Hc Hn Hw. induction j as [|j IH]; intros errors a w Hfail Hok Ha Hl.
  - simpl in Hok. rewrite app_nil_r in Hok.
    eexists. erewrite attempts_return; [reflexivity|]. by apply eth_succeeds.
  - pose proof (Hfail 0%nat ltac:(lia)) as H0. simpl in H0. rewrite app_nil_r in H0.
    change (S (S j + r)) with (S (S (j + r))).
    erewrite attempts_continue;
      [|apply (eth_fails_early _ _ _ _ (errors 0%nat)); try done; apply Z.eqb_neq; lia].
    destruct (IH (fun i => errors (S i)) (a + 1)
                {| files := files w;
                   console := console w
                     ++ [processing this a; failing N a (errors 0%nat)];
                   requests := requests w ++ ["Ethereum"] |})
      as [lines Hrun].
    + intros i Hi. cbn [requests]. rewrite requests_repeat. apply Hfail. lia.
    + cbn [requests]. by rewrite requests_repeat.
    + lia.
    + done.
    + rewrite Hrun. cbn [files console requests].
      eexists. rewrite <- app_assoc, requests_repeat. reflexivity.
Qed.

(** X8. When the first sends fail and a later one, within [maxRetries],
    is answered, [sendTransaction] on Ethereum stops there: it has sent
    the transaction once per failure and once more, it returns the
    response, and the log holds one [success] entry and no trace of the
    failures. *)
Theorem sendTransaction_stops_at_first_success
    this transaction response (errors : nat -> exn) failures w :
  chain this = "Ethereum" ->
  (forall i, (i < failures)%nat ->
     eth_sendTransaction N (requests w ++ repeat "Ethereum" i) (signedTx transaction)
     = Threw (errors i)) ->
  eth_sendTransaction N (requests w ++ repeat "Ethereum" failures) (signedTx transaction)
  = OK response ->
  response <> JNull ->
  Z.of_nat failures < maxRetries cfg ->
  files w !! logPath = None ->
  fs_write_error P logPath = None ->
  result (sendTransaction P N cfg this transaction) w = OK (Some response)
  /\ requests (exec (sendTransaction P N cfg this transaction) w)
     = requests w ++ repeat "Ethereum" (S failures)
  /\ files (exec (sendTransaction P N cfg this transaction) w)
     = <[logPath := JSON_stringify (JArr [successEntry response])]> (files w).
Proof.
  intros Hc Hfail Hok Hn Hm Hl Hw. unfold sendTransaction, result, exec.
  replace (Z.to_nat (maxRetries cfg))
    with (S (failures + (Z.to_nat (maxRetries cfg) - S failures))) by lia.
  destruct (first_success_loop this transaction response
              (Z.to_nat (maxRetries cfg) - S failures) Hc Hn Hw
              failures errors 1 w) as [lines ->]; try done. lia.
Qed.

Lemma unsupported_loop this transaction r :
  chain this <> "Ethereum" -> chain this <> "Solana" ->
  fs_write_error P logPath = None ->
  forall a w,
    a + Z.of_nat r = maxRetries cfg ->
    files w !! logPath = None ->
    exists lines,
      length lines = (2 * S r)%nat
      /\ attempts P N cfg this transaction (S r) a w
         = (Threw (Error "Unsupported chain"),
            {| files := <[logPath := JSON_stringify
                            (JArr [failedEntry N this transaction
                                     (Error "Unsupported chain")])]> (files w);
               console := console w ++ lines;
               requests := requests w |}).
Proof.
  intros He Hs Hw. induction r as [|r IH]; intros a w Ha Hl.
  - eexists. split; [|erewrite attempts_throw; [reflexivity|]].
    2: { apply unsupported_last; try done. apply Z.eqb_eq. lia. }
    done.
  - erewrite attempts_continue;
      [|apply unsupported_early; try done; apply Z.eqb_neq; lia].
    destruct (IH (a + 1)
                {| files := files w;
                   console := console w
                     ++ [processing this a; failing N a (Error "Unsupported chain")];
                   requests := requests w |})
      as (lines & Hlen & Hrun); [lia|done|].
    rewrite Hrun. cbn [files console requests].
    eexists. split; [|rewrite <- app_assoc; reflexivity].
    simpl. rewrite Hlen. lia.
Qed.

(** X9. On a chain that is neither Ethereum nor Solana nothing is ever
    sent; the loop still runs all its turns, two printed lines each, then
    logs a [failed] entry and throws [Unsupported chain]. *)
Theorem sendTransaction_on_an_unsupported_chain this transaction w :
  chain this <> "Ethereum" -> chain this <> "Solana" ->
  1 <= maxRetries cfg ->
  files w !! logPath = None ->
  fs_write_error P logPath = None ->
  result (sendTransaction P N cfg this transaction) w
  = Threw (Error "Unsupported chain")
  /\ requests (exec (sendTransaction P N cfg this transaction) w) = requests w
  /\ files (exec (sendTransaction P N cfg this transaction) w)
     = <[logPath := JSON_stringify
           (JArr [failedEntry N this transaction (Error "Unsupported chain")])]> (files w)
  /\ length (printed (sendTransaction P N cfg this transaction) w)
     = (2 * Z.to_nat (maxRetries cfg))%nat.
Proof.
  intros He Hs Hm Hl Hw. unfold printed, sendTransaction, result, exec.
  destruct (Z.to_nat (maxRetries cfg)) as [|r] eqn:Hr; [lia|].
  destruct (unsupported_loop this transaction r He Hs Hw 1 w) as (lines & Hlen & ->);
    [lia|done|].
  cbn [fst snd files console requests]. rewrite drop_app_length. done.
Qed.

Lemma unlogged_loop this transaction code r :
  chain this = "Ethereum" ->
  (forall h, exists response,
     eth_sendTransaction N h (signedTx transaction) = OK response
     /\ response <> JNull) ->
  fs_write_error P logPath = Some code ->
  forall a w,
    a + Z.of_nat r = maxRetries cfg ->
    files w !! logPath = None ->
    exists lines,
      attempts P N cfg this transaction (S r) a w
      = (Threw (SystemError code),
         {| files := files w;
            console := console w ++ lines;
            requests := requests w ++ repeat "Ethereum" (S r) |}).
Proof.
  intros Hc Hs Hw. induction r as [|r IH]; intros a w Ha Hl.
  - destruct (Hs (requests w)) as (response & Hok & Hn).
    eexists. erewrite attempts_throw; [reflexivity|].
    apply (eth_unlogged_last _ _ _ _ response); try done. apply Z.eqb_eq. lia.
  - destruct (Hs (requests w)) as (response & Hok & Hn).
    erewrite attempts_continue;
      [|apply (eth_unlogged_early _ _ _ _ response code); try done; apply Z.eqb_neq; lia].
    destruct (IH (a + 1)
                {| files := files w;
                   console := console w
                     ++ [processing this a; failing N a (SystemError code)];
                   requests := requests w ++ ["Ethereum"] |})
      as [lines Hrun]; [lia|done|].
    rewrite Hrun. cbn [files console requests].
    eexists. rewrite <- app_assoc, requests_repeat. reflexivity.
Qed.

(** X10. A send that was answered counts as failed when its log entry
    cannot be written: with a log file that cannot be written, a
    transaction that Ethereum accepts every time is sent [maxRetries]
    times, and [sendTransaction] throws the error of the write. *)
Theorem sendTransaction_resends_what_it_cannot_log this transaction code w :
  chain this = "Ethereum" ->
  (forall h, exists response,
     eth_sendTransaction N h (signedTx transaction) = OK response
     /\ response <> JNull) ->
  1 <= maxRetries cfg ->
  files w !! logPath = None ->
  fs_write_error P logPath = Some code ->
  result (sendTransaction P N cfg this transaction) w = Threw (SystemError code)
  /\ requests (exec (sendTransaction P N cfg this transaction) w)
     = requests w ++ repeat "Ethereum" (Z.to_nat (maxRetries cfg))
  /\ files (exec (sendTransaction P N cfg this transaction) w) = files w.
Proof.
  intros Hc Hs Hm Hl Hw. unfold sendTransaction, result, exec.
  destruct (Z.to_nat (maxRetries cfg)) as [|r] eqn:Hr; [lia|].
  destruct (unlogged_loop this transaction code r Hc Hs Hw 1 w) as [lines ->];
    [lia|done|]. done.
Qed.

End MultiChainRetry.

(** ** The Multi-Chain theorems at work *)

Lemma logTransaction_appends_witness :
  let entry := JObj [("chain", JStr "Ethereum"); ("status", JStr "success")] in
  let logged := exec (MultiChain.logTransaction Example.platform MultiChain.CONFIG entry)
                  emptyWorld in
  files logged
  = <[ "./transaction_logs.json" := JSON_stringify (JArr [entry]) ]> ∅
  /\ files (exec (MultiChain.logTransaction Example.platform MultiChain.CONFIG entry) logged)
     !! "./transaction_logs.json"
     = Some (JSON_stringify (JArr [entry; entry])).
Proof.
  intros entry logged.
  destruct (logTransaction_appends Example.platform MultiChain.CONFIG entry emptyWorld)
    as (Hnew & _); [reflexivity|].
  assert (files logged = <[ "./transaction_logs.json" := JSON_stringify (JArr [entry]) ]> ∅)
    as Hlogged.
  { unfold logged, exec. rewrite Hnew; reflexivity. }
  split; [exact Hlogged|].
  destruct (logTransaction_appends Example.platform MultiChain.CONFIG entry logged)
    as (_ & Happend & _); [reflexivity|].
  unfold exec. rewrite (Happend (JSON_stringify (JArr [entry])) [entry]).
  - apply lookup_insert_eq.
  - rewrite Hlogged. apply lookup_insert_eq.
  - vm_compute. reflexivity.
Defined.

Lemma sendTransaction_is_bounded_witness :
  let send := MultiChain.sendTransaction Example.platform MultiChainExample.flaky
                MultiChain.CONFIG MultiChainExample.ethProcessor MultiChainExample.ethTx in
  (length (requests (exec send emptyWorld)) <= 3)%nat
  /\ files (exec send Example.newerLocal) !! "data/NodeA_data.json"
     = files Example.newerLocal !! "data/NodeA_data.json".
Proof.
  intros send.
  destruct (sendTransaction_is_bounded Example.platform MultiChainExample.flaky
              MultiChain.CONFIG MultiChainExample.ethProcessor MultiChainExample.ethTx
              emptyWorld) as (Hsends & _).
  destruct (sendTransaction_is_bounded Example.platform MultiChainExample.flaky
              MultiChain.CONFIG MultiChainExample.ethProcessor MultiChainExample.ethTx
              Example.newerLocal) as (_ & Hframe & _).
  split; [exact Hsends|]. apply Hframe. discriminate.
Defined.

Lemma sendTransaction_gives_up_after_maxRetries_witness :
  let send := MultiChain.sendTransaction Example.platform MultiChainExample.down
                MultiChain.CONFIG MultiChainExample.ethProcessor MultiChainExample.ethTx in
  let e := Error "could not detect network" in
  result send emptyWorld = Threw e
  /\ requests (exec send emptyWorld) = ["Ethereum"; "Ethereum"; "Ethereum"]
  /\ files (exec send emptyWorld)
     = <[ "./transaction_logs.json"
          := JSON_stringify
               (JArr [MultiChain.failedEntry MultiChainExample.down
                        MultiChainExample.ethProcessor MultiChainExample.ethTx e]) ]> ∅.
Proof.
  intros send e.
  apply (sendTransaction_gives_up_after_maxRetries Example.platform MultiChainExample.down
           MultiChain.CONFIG MultiChainExample.ethProcessor MultiChainExample.ethTx e
           emptyWorld).
  - reflexivity.
  - intros h. reflexivity.
  - simpl. lia.
  - reflexivity.
  - reflexivity.
Defined.

Lemma sendTransaction_stops_at_first_success_witness :
  let send := MultiChain.sendTransaction Example.platform MultiChainExample.flaky
                MultiChain.CONFIG MultiChainExample.ethProcessor MultiChainExample.ethTx in
  result send emptyWorld = OK (Some MultiChainExample.receipt)
  /\ requests (exec send emptyWorld) = ["Ethereum"; "Ethereum"; "Ethereum"]
  /\ files (exec send emptyWorld)
     = <[ "./transaction_logs.json"
          := JSON_stringify
               (JArr [MultiChain.successEntry MultiChainExample.receipt]) ]> ∅.
Proof.
  intros send.
  apply (sendTransaction_stops_at_first_success Example.platform MultiChainExample.flaky
           MultiChain.CONFIG MultiChainExample.ethProcessor MultiChainExample.ethTx
           MultiChainExample.receipt (fun _ => Error "timeout") 2 emptyWorld).
  - reflexivity.
  - intros [|[|i]] Hi; [reflexivity|reflexivity|lia].
  - reflexivity.
  - discriminate.
  - simpl. lia.
  - reflexivity.
  - reflexivity.
Defined.

Lemma sendTransaction_on_an_unsupported_chain_witness :
  let send := MultiChain.sendTransaction Example.platform MultiChainExample.up
                MultiChain.CONFIG MultiChainExample.polygonProcessor
                MultiChainExample.ethTx in
  result send emptyWorld = Threw (Error "Unsupported chain")
  /\ requests (exec send emptyWorld) = []
  /\ files (exec send emptyWorld)
     = <[ "./transaction_logs.json"
          := JSON_stringify
               (JArr [MultiChain.failedEntry MultiChainExample.up
                        MultiChainExample.polygonProcessor MultiChainExample.ethTx
                        (Error "Unsupported chain")]) ]> ∅
  /\ length (printed send emptyWorld) = 6%nat.
Proof.
  intros send.
  apply (sendTransaction_on_an_unsupported_chain Example.platform MultiChainExample.up
           MultiChain.CONFIG MultiChainExample.polygonProcessor MultiChainExample.ethTx
           emptyWorld).
  - discriminate.
  - discriminate.
  - simpl. lia.
  - reflexivity.
  - reflexivity.
Defined.

Lemma sendTransaction_resends_what_it_cannot_log_witness :
  let send := MultiChain.sendTransaction MultiChainExample.readOnly MultiChainExample.up
                MultiChain.CONFIG MultiChainExample.ethProcessor MultiChainExample.ethTx in
  result send emptyWorld = Threw (SystemError "EACCES")
  /\ requests (exec send emptyWorld) = ["Ethereum"; "Ethereum"; "Ethereum"]
  /\ files (exec send emptyWorld) = ∅.
Proof.
  intros send.
  apply (sendTransaction_resends_what_it_cannot_log MultiChainExample.readOnly
           MultiChainExample.up MultiChain.CONFIG MultiChainExample.ethProcessor
           MultiChainExample.ethTx "EACCES" emptyWorld).
  - reflexivity.
  - intros h. exists MultiChainExample.receipt. split; [reflexivity|discriminate].
  - simpl. lia.
  - reflexivity.
  - reflexivity.
Defined.


(** ** The contract ZenoDecentralizedOracle *)

Section OracleNodes.

Import Oracle.
Local Open Scope N_scope.

Implicit Types (s : State) (a : address) (msg : Msg).

Lemma increment_Some x y : increment x = Some y -> y = x + 1 /\ x < MAX_UINT256.
Proof.
  unfold increment. destruct (N.ltb_spec x MAX_UINT256); [|done].
  by intros [= <-].
Qed.

Lemma decrement_Some x y : decrement x = Some y -> x = y + 1.
Proof.
  unfold decrement. destruct (N.ltb_spec 0 x); [|done].
  intros [= <-]. lia.
Qed.

Lemma active_node_lookup s a :
  active (node_at s a) = true -> exists n, oracleNodes s !! a = Some n /\ active n = true.
Proof.
  unfold node_at. destruct (oracleNodes s !! a) as [n|]; simpl; [eauto|done].
Qed.

(** How the set of active nodes changes when one entry is written. *)
Lemma size_activate (m : gmap N OracleNode) a n :
  active n = true ->
  (forall n', m !! a = Some n' -> active n' = false) ->
  size (filter (fun kv : N * OracleNode => active kv.2 = true) (<[a := n]> m))
  = S (size (filter (fun kv : N * OracleNode => active kv.2 = true) m)).
Proof.
  intros Hn Hold. rewrite map_filter_insert_True by done.
  apply map_size_insert_None. apply map_lookup_filter_None. right.
  intros n' Hl. simpl. rewrite (Hold n' Hl). done.
Qed.

Lemma size_keep_active (m : gmap N OracleNode) a n n' :
  active n = true -> m !! a = Some n' -> active n' = true ->
  size (filter (fun kv : N * OracleNode => active kv.2 = true) (<[a := n]> m))
  = size (filter (fun kv : N * OracleNode => active kv.2 = true) m).
Proof.
  intros Hn Hl Hn'. rewrite map_filter_insert_True by done.
  apply map_size_insert_Some. exists n'. by apply map_lookup_filter_Some.
Qed.

Lemma size_deactivate (m : gmap N OracleNode) a n n' :
  active n = false -> m !! a = Some n' -> active n' = true ->
  S (size (filter (fun kv : N * OracleNode => active kv.2 = true) (<[a := n]> m)))
  = size (filter (fun kv : N * OracleNode => active kv.2 = true) m).
Proof.
  intros Hn Hl Hn'. rewrite map_filter_insert_False by (simpl; congruence).
  rewrite map_filter_delete, map_size_delete_Some.
  - assert (size (filter (fun kv : N * OracleNode => active kv.2 = true) m) <> 0%nat);
      [|lia].
    intros Hz%map_size_empty_inv.
    assert (filter (fun kv : N * OracleNode => active kv.2 = true) m !! a = Some n')
      as Hf by (by apply map_lookup_filter_Some).
    by rewrite Hz in Hf.
  - exists n'. by apply map_lookup_filter_Some.
Qed.

Ltac call :=
  unfold requestData, fulfillDataRequest, registerOracleNode, deactivateOracleNode,
    updateDataRequestFee, getDataRequest, withdrawFees, fallback, receive,
    nonpayable, state_after;
  repeat (case_match; simplify_eq; try done).

Lemma step_counted s tx : counted s -> counted (step s tx).
Proof.
  intros Hs. destruct tx as [msg c]. unfold step.
  destruct c; call; unfold counted, activeNodes in *; cbn [totalActiveNodes oracleNodes];
    try done.
  - (* fulfil: the sender is active and stays so *)
    match goal with H : negb (active (node_at s (sender msg))) = false |- _ =>
      apply negb_false_iff, active_node_lookup in H as (nd & Hl & Hn) end.
    unfold node_at. rewrite Hl. simpl. rewrite Hn.
    by rewrite (size_keep_active _ _ _ nd).
  - (* register *)
    match goal with H : increment _ = Some _ |- _ =>
      apply increment_Some in H as [-> _] end.
    rewrite size_activate; [rewrite Hs; lia|done|].
    intros n' Hl.
    match goal with H : active (node_at s a) = false |- _ =>
      unfold node_at in H; by rewrite Hl in H end.
  - (* deactivate *)
    match goal with H : decrement _ = Some _ |- _ =>
      apply decrement_Some in H end.
    match goal with H : negb (active (node_at s a)) = false |- _ =>
      apply negb_false_iff, active_node_lookup in H as (n' & Hl & Hn') end.
    pose proof (size_deactivate (oracleNodes s) a
                  {| nodeAddress := nodeAddress (node_at s a);
                     reputation := reputation (node_at s a);
                     active := false |} n' eq_refl Hl Hn') as Hsize.
    lia.
Qed.

Lemma run_counted s txs : counted s -> counted (run s txs).
Proof.
  revert s. induction txs as [|tx txs IH]; intros s Hs; [done|].
  simpl. by apply IH, step_counted.
Qed.

(** X11. [totalActiveNodes] counts the active nodes: from the deployment of
    the contract on, after any sequence of transactions, it is the number
    of addresses whose node is active.  So the decrement in
    [deactivateOracleNode] never goes below zero. *)
Theorem totalActiveNodes_counts_the_active_nodes msg funds fee s0 txs :
  constructor msg funds fee = Returns tt s0 [] ->
  totalActiveNodes (run s0 txs) = N.of_nat (size (activeNodes (run s0 txs)))
  /\ (forall msg' a,
        deactivateOracleNode msg' a (run s0 txs) <> Panics 0x11).
Proof.
  intros Hc.
  assert (counted s0) as H0.
  { unfold constructor, nonpayable in Hc. destruct (value msg =? 0); [|done].
    injection Hc as <-. done. }
  pose proof (run_counted s0 txs H0) as Hs. split; [done|].
  intros msg' a. set (s := run s0 txs) in *.
  unfold deactivateOracleNode, nonpayable.
  repeat (case_match; simplify_eq; try done).
  match goal with H : negb (active (node_at s a)) = false |- _ =>
    apply negb_false_iff, active_node_lookup in H as (n' & Hl & Hn') end.
  assert (activeNodes s !! a = Some n') as Hf by (by apply map_lookup_filter_Some).
  unfold decrement in *. destruct (N.ltb_spec 0 (totalActiveNodes s)); [done|].
  unfold counted in Hs.
  assert (size (activeNodes s) = 0%nat) as Hz%map_size_empty_inv by lia.
  by rewrite Hz in Hf.
Qed.


(** *** Requests *)

Lemma request_at_eq s k r : dataRequests s !! k = Some r -> request_at s k = r.
Proof. unfold request_at. by intros ->. Qed.

Lemma node_at_eq s a n : oracleNodes s !! a = Some n -> node_at s a = n.
Proof. unfold node_at. by intros ->. Qed.

Lemma step_numbered s tx : numbered s -> numbered (step s tx).
Proof.
  intros Hs. destruct tx as [msg c]. unfold step.
  destruct c; call; intros k; specialize (Hs k);
    unfold request_at in *; cbn [dataRequests requestIdCounter]; try done.
  - (* requestData *)
    match goal with H : increment _ = Some _ |- _ =>
      apply increment_Some in H as [-> _] end.
    destruct (decide (k = requestIdCounter s + 1)) as [->|Hk].
    + rewrite lookup_insert_eq. simpl.
      destruct (N.ltb_spec 0 (requestIdCounter s + 1)); [|lia].
      by destruct (N.leb_spec (requestIdCounter s + 1) (requestIdCounter s + 1)); [|lia].
    + rewrite lookup_insert_ne by done. rewrite Hs.
      destruct (0 <? k); simpl; [|done].
      destruct (N.leb_spec k (requestIdCounter s)),
               (N.leb_spec k (requestIdCounter s + 1)); try done; lia.
  - (* fulfil *)
    destruct (decide (k = requestId)) as [->|Hk].
    + by rewrite lookup_insert_eq.
    + by rewrite lookup_insert_ne.
Qed.

Lemma run_numbered s txs : numbered s -> numbered (run s txs).
Proof.
  revert s. induction txs as [|tx txs IH]; intros s Hs; [done|].
  simpl. by apply IH, step_numbered.
Qed.

(** X12. Requests are numbered from one, without gaps: from the deployment
    on, after any sequence of transactions, the requests made so far are
    those with an id from 1 to [requestIdCounter], each stored under its
    own id, and no other key of [dataRequests] holds a request that was
    made. *)
Theorem requests_are_numbered_from_one msg funds fee s0 txs k :
  constructor msg funds fee = Returns tt s0 [] ->
  id (request_at (run s0 txs) k)
  = if (0 <? k) && (k <=? requestIdCounter (run s0 txs)) then k else 0.
Proof.
  intros Hc. apply run_numbered.
  unfold constructor, nonpayable in Hc. destruct (value msg =? 0); [|done].
  injection Hc as <-. intros k'. unfold request_at. cbn.
  rewrite lookup_empty. simpl. destruct (0 <? k'); simpl; [|done].
  by destruct (N.leb_spec k' 0); [lia|].
Qed.

Lemma step_keeps_fulfilled s tx k :
  fulfilled (request_at s k) = true ->
  k <= requestIdCounter s ->
  request_at (step s tx) k = request_at s k
  /\ requestIdCounter s <= requestIdCounter (step s tx).
Proof.
  intros Hf Hk. destruct tx as [msg c]. unfold step.
  destruct c; call; unfold request_at in *; cbn [dataRequests requestIdCounter];
    try (split; [done|lia]).
  - match goal with H : increment _ = Some _ |- _ =>
      apply increment_Some in H as [-> _] end.
    rewrite lookup_insert_ne by lia. split; [done|lia].
  - destruct (decide (k = requestId)) as [->|Hne]; [congruence|].
    rewrite lookup_insert_ne by done. split; [done|lia].
Qed.

(** X13. An answer is final.  Once a request that was made is fulfilled,
    no later transaction changes it: its result, and every other field,
    stay as they are, and a further attempt to fulfil it reverts. *)
Theorem fulfilled_request_is_final s k txs :
  fulfilled (request_at s k) = true ->
  k <= requestIdCounter s ->
  request_at (run s txs) k = request_at s k
  /\ (forall msg answer,
        value msg = 0 ->
        active (node_at (run s txs) (sender msg)) = true ->
        fulfillDataRequest msg k answer (run s txs)
        = Reverts "Request already fulfilled").
Proof.
  intros Hf Hk.
  assert (request_at (run s txs) k = request_at s k
          /\ requestIdCounter s <= requestIdCounter (run s txs)) as [Hsame _].
  { revert s Hf Hk. induction txs as [|tx txs IH]; intros s Hf Hk; [simpl; split; [done|lia]|].
    simpl. destruct (step_keeps_fulfilled s tx k Hf Hk) as [Hr Hc].
    destruct (IH (step s tx)) as [Hr' Hc']; [by rewrite Hr|lia|].
    split; [by rewrite Hr', Hr|lia]. }
  split; [done|]. intros msg answer Hv Ha.
  unfold fulfillDataRequest, nonpayable. rewrite Hv, Ha, Hsame, Hf. done.
Qed.

(** X14. [fulfillDataRequest] does not ask whether the request was ever
    made.  An active node can fulfil the id that the next request will get;
    the next [requestData] then stores its request over that answer,
    unfulfilled and with an empty result, while the node keeps the
    reputation point. *)
Theorem answer_before_the_request_is_lost s node msg answer msg' question :
  sender msg = node ->
  value msg = 0 ->
  active (node_at s node) = true ->
  reputation (node_at s node) < MAX_UINT256 ->
  requestIdCounter s < MAX_UINT256 ->
  fulfilled (request_at s (requestIdCounter s + 1)) = false ->
  dataRequestFee s <= value msg' ->
  let k := requestIdCounter s + 1 in
  exists s1 events1 s2 events2,
    fulfillDataRequest msg k answer s = Returns tt s1 events1
    /\ fulfilled (request_at s1 k) = true
    /\ result (request_at s1 k) = answer
    /\ requestData msg' question s1 = Returns tt s2 events2
    /\ request_at s2 k
       = {| id := k; requester := sender msg'; query := question;
            createdAt := timestamp msg'; fulfilled := false; result := "" |}
    /\ reputation (node_at s2 node) = reputation (node_at s node) + 1.
Proof.
  intros Hs Hv Ha Hr Hc Hf Hfee k. subst k.
  unfold fulfillDataRequest, nonpayable. rewrite Hv, Hs, Ha. cbn [negb N.eqb].
  rewrite Hf. unfold increment at 1.
  destruct (N.ltb_spec (reputation (node_at s node)) MAX_UINT256); [|lia].
  eexists _, _, _, _. split; [reflexivity|].
  unfold requestData. cbn [dataRequestFee requestIdCounter].
  destruct (N.leb_spec (dataRequestFee s) (value msg')); [|lia]. cbn [negb].
  unfold increment.
  destruct (N.ltb_spec (requestIdCounter s) MAX_UINT256); [|lia].
  split; [|split; [|split; [reflexivity|split]]].
  - erewrite request_at_eq; [|apply lookup_insert_eq]. done.
  - erewrite request_at_eq; [|apply lookup_insert_eq]. done.
  - erewrite request_at_eq; [|apply lookup_insert_eq]. done.
  - erewrite node_at_eq; [|apply lookup_insert_eq]. done.
Qed.

(** *** The owner *)

Lemma step_by_others s tx :
  sender tx.1 <> owner s ->
  owner (step s tx) = owner s
  /\ dataRequestFee (step s tx) = dataRequestFee s
  /\ totalActiveNodes (step s tx) = totalActiveNodes s
  /\ (forall a, active (node_at (step s tx) a) = active (node_at s a))
  /\ balance s <= balance (step s tx).
Proof.
  destruct tx as [msg c]. simpl. intros Ho%N.eqb_neq.
  destruct c;
    unfold requestData, fulfillDataRequest, registerOracleNode, deactivateOracleNode,
      updateDataRequestFee, getDataRequest, withdrawFees, fallback, receive, nonpayable;
    rewrite ?Ho; cbn [negb];
    call; cbn; repeat split; try lia; try done.
  intros a. unfold node_at. cbn [oracleNodes].
  destruct (decide (a = sender msg)) as [->|Hne].
  - by rewrite lookup_insert_eq.
  - by rewrite lookup_insert_ne.
Qed.

(** X15. Only the owner governs the contract.  Transactions sent by
    anyone else, however many and whatever they call, leave the owner, the
    fee, the set of active nodes and its count as they were, and take no
    ether out of the contract. *)
Theorem only_the_owner_governs s txs :
  Forall (fun tx : Msg * Call => sender tx.1 <> owner s) txs ->
  owner (run s txs) = owner s
  /\ dataRequestFee (run s txs) = dataRequestFee s
  /\ totalActiveNodes (run s txs) = totalActiveNodes s
  /\ (forall a, active (node_at (run s txs) a) = active (node_at s a))
  /\ balance s <= balance (run s txs).
Proof.
  revert s. induction txs as [|tx txs IH]; intros s Htxs; [simpl; repeat split; lia|].
  inversion_clear Htxs as [|? ? Htx Hrest]. simpl.
  destruct (step_by_others s tx Htx) as (Ho & Hfee & Ht & Hact & Hb).
  destruct (IH (step s tx)) as (Ho' & Hfee' & Ht' & Hact' & Hb').
  { by rewrite Ho. }
  repeat split; try congruence; try lia.
Qed.

Lemma deactivateOracleNode_returns s msg a :
  sender msg = owner s -> value msg = 0 ->
  active (node_at s a) = true -> 0 < totalActiveNodes s ->
  deactivateOracleNode msg a s
  = Returns tt
      {| owner := owner s;
         dataRequestFee := dataRequestFee s;
         requestIdCounter := requestIdCounter s;
         dataRequests := dataRequests s;
         oracleNodes :=
           <[a := {| nodeAddress := nodeAddress (node_at s a);
                     reputation := reputation (node_at s a);
                     active := false |}]> (oracleNodes s);
         totalActiveNodes := totalActiveNodes s - 1;
         balance := balance s |}
      [OracleNodeDeactivated a].
Proof.
  intros Ho Hv Ha Ht. unfold deactivateOracleNode, nonpayable, decrement.
  rewrite Hv, Ho, Ha, !N.eqb_refl. cbn [negb].
  by destruct (N.ltb_spec 0 (totalActiveNodes s)); [|lia].
Qed.

Lemma registerOracleNode_returns s msg a :
  sender msg = owner s -> value msg = 0 ->
  active (node_at s a) = false -> totalActiveNodes s < MAX_UINT256 ->
  registerOracleNode msg a s
  = Returns tt
      {| owner := owner s;
         dataRequestFee := dataRequestFee s;
         requestIdCounter := requestIdCounter s;
         dataRequests := dataRequests s;
         oracleNodes :=
           <[a := {| nodeAddress := a; reputation := 0; active := true |}]>
             (oracleNodes s);
         totalActiveNodes := totalActiveNodes s + 1;
         balance := balance s |}
      [OracleNodeRegistered a].
Proof.
  intros Ho Hv Ha Ht. unfold registerOracleNode, nonpayable, increment.
  rewrite Hv, Ho, Ha, !N.eqb_refl. cbn [negb].
  by destruct (N.ltb_spec (totalActiveNodes s) MAX_UINT256); [|lia].
Qed.

(** X16. Reputation does not survive a node being taken out and put back:
    when the owner deactivates an active node and registers it again, the
    node is active with reputation zero, and the count of active nodes is
    what it was. *)
Theorem registering_again_resets_reputation s msg a :
  sender msg = owner s ->
  value msg = 0 ->
  active (node_at s a) = true ->
  0 < totalActiveNodes s <= MAX_UINT256 ->
  let s' := run s [(msg, CallDeactivateOracleNode a); (msg, CallRegisterOracleNode a)] in
  node_at s' a = {| nodeAddress := a; reputation := 0; active := true |}
  /\ totalActiveNodes s' = totalActiveNodes s.
Proof.
  intros Ho Hv Ha Ht. unfold run. cbn [fold_left step].
  rewrite deactivateOracleNode_returns by (done || lia). cbn [state_after].
  rewrite registerOracleNode_returns; cbn [owner totalActiveNodes]; try done; try lia.
  - cbn [state_after totalActiveNodes]. split; [|lia].
    apply node_at_eq. apply lookup_insert_eq.
  - erewrite node_at_eq; [|apply lookup_insert_eq]. done.
Qed.

End OracleNodes.

(** ** The contract's theorems at work *)

Lemma totalActiveNodes_counts_the_active_nodes_witness :
  let s := Oracle.run OracleExample.deployed OracleExample.history in
  Oracle.totalActiveNodes s = N.of_nat (size (Oracle.activeNodes s))
  /\ (forall msg' a, Oracle.deactivateOracleNode msg' a s <> Oracle.Panics 0x11%N).
Proof.
  apply (totalActiveNodes_counts_the_active_nodes OracleExample.byOwner 0%N 5%N
           OracleExample.deployed OracleExample.history).
  reflexivity.
Defined.

Lemma requests_are_numbered_from_one_witness :
  let s := Oracle.run OracleExample.deployed
             (OracleExample.history ++ OracleExample.later) in
  Oracle.id (Oracle.request_at s 2%N)
  = if ((0 <? 2) && (2 <=? Oracle.requestIdCounter s))%N then 2%N else 0%N.
Proof.
  apply (requests_are_numbered_from_one OracleExample.byOwner 0%N 5%N
           OracleExample.deployed (OracleExample.history ++ OracleExample.later) 2%N).
  reflexivity.
Defined.

Lemma fulfilled_request_is_final_witness :
  let s := Oracle.run OracleExample.deployed OracleExample.history in
  Oracle.request_at (Oracle.run s OracleExample.later) 1%N = Oracle.request_at s 1%N
  /\ (forall msg answer,
        Oracle.value msg = 0%N ->
        Oracle.active (Oracle.node_at (Oracle.run s OracleExample.later) (Oracle.sender msg))
        = true ->
        Oracle.fulfillDataRequest msg 1%N answer (Oracle.run s OracleExample.later)
        = Oracle.Reverts "Request already fulfilled").
Proof.
  apply (fulfilled_request_is_final
           (Oracle.run OracleExample.deployed OracleExample.history) 1%N
           OracleExample.later).
  - vm_compute. reflexivity.
  - vm_compute. discriminate.
Defined.

Lemma answer_before_the_request_is_lost_witness :
  let s := Oracle.run OracleExample.deployed
             [(OracleExample.byOwner, Oracle.CallRegisterOracleNode 2%N)] in
  exists s1 events1 s2 events2,
    Oracle.fulfillDataRequest OracleExample.byNode 1%N "3000" s
    = Oracle.Returns tt s1 events1
    /\ Oracle.fulfilled (Oracle.request_at s1 1%N) = true
    /\ Oracle.result (Oracle.request_at s1 1%N) = "3000"
    /\ Oracle.requestData OracleExample.byUser "ETH/USD" s1
       = Oracle.Returns tt s2 events2
    /\ Oracle.request_at s2 1%N
       = {| Oracle.id := 1%N; Oracle.requester := 3%N; Oracle.query := "ETH/USD";
            Oracle.createdAt := 200%N; Oracle.fulfilled := false; Oracle.result := "" |}
    /\ Oracle.reputation (Oracle.node_at s2 2%N) = 1%N.
Proof.
  apply (answer_before_the_request_is_lost
           (Oracle.run OracleExample.deployed
              [(OracleExample.byOwner, Oracle.CallRegisterOracleNode 2%N)])
           2%N OracleExample.byNode "3000" OracleExample.byUser "ETH/USD").
  - reflexivity.
  - reflexivity.
  - vm_compute. reflexivity.
  - vm_compute. reflexivity.
  - vm_compute. reflexivity.
  - vm_compute. reflexivity.
  - vm_compute. discriminate.
Defined.

Lemma only_the_owner_governs_witness :
  let s := Oracle.run OracleExample.deployed OracleExample.history in
  let s' := Oracle.run s OracleExample.meddling in
  Oracle.owner s' = Oracle.owner s
  /\ Oracle.dataRequestFee s' = Oracle.dataRequestFee s
  /\ Oracle.totalActiveNodes s' = Oracle.totalActiveNodes s
  /\ (forall a, Oracle.active (Oracle.node_at s' a) = Oracle.active (Oracle.node_at s a))
  /\ (Oracle.balance s <= Oracle.balance s')%N.
Proof.
  apply (only_the_owner_governs
           (Oracle.run OracleExample.deployed OracleExample.history)
           OracleExample.meddling).
  repeat constructor; vm_compute; discriminate.
Defined.

Lemma registering_again_resets_reputation_witness :
  let s := Oracle.run OracleExample.deployed OracleExample.history in
  let s' := Oracle.run s [(OracleExample.byOwner, Oracle.CallDeactivateOracleNode 2%N);
                          (OracleExample.byOwner, Oracle.CallRegisterOracleNode 2%N)] in
  Oracle.reputation (Oracle.node_at s 2%N) = 1%N
  /\ Oracle.node_at s' 2%N
     = {| Oracle.nodeAddress := 2%N; Oracle.reputation := 0%N; Oracle.active := true |}
  /\ Oracle.totalActiveNodes s' = Oracle.totalActiveNodes s.
Proof.
  intros s s'. split; [vm_compute; reflexivity|].
  apply (registering_again_resets_reputation
           (Oracle.run OracleExample.deployed OracleExample.history)
           OracleExample.byOwner 2%N).
  - vm_compute. reflexivity.
  - reflexivity.
  - vm_compute. reflexivity.
  - vm_compute. split; [reflexivity|discriminate].
Defined.

